(** * T-Shirt Showdown backend: the room/session coordination core of server.js

    A shallow embedding of the socket handlers of [src/server.js] (the two
    process-wide maps [rooms] and [players], the handlers registered in
    [io.on('connection')] and the countdown armed by [startGame]) together
    with the properties its specification states about them.

    The transport (socket.io) is not part of the repository.  What the
    handlers use of it is modelled in the state: [groups] holds the members
    of every broadcast group ([socket.join] adds the socket, a disconnecting
    socket has left all its groups when its 'disconnect' handler runs),
    [socket.emit] reaches the socket itself and [io.to(code).emit] reaches
    every socket that is in the group [code] when the call is made, the
    calling socket included.  The transport also keeps every socket in a group
    named by its own id; room codes are six capital letters and socket ids
    are not, so [io.to(code)] never addresses such a group and they are left
    out.  Non-deterministic inputs of a handler (the code returned by
    [generateRoomCode], [Date.now()], the formatted time of a chat line) are
    arguments of the event, and the fields of an event's payload are
    strings. *)

From stdpp Require Import gmap strings list fin_maps.
From Stdlib Require Import ZArith.

Open Scope Z_scope.

(** ** Data model *)

(** [{ id: socket.id, name: data.playerName, isHost }] *)
Record Player := mkPlayer {
  id : string;
  name : string;
  isHost : bool
}.

(** The value stored in the [players] map: [{ ...player, roomCode }], a copy
    of the three fields of the player taken when the entry is written. *)
Record Entry := mkEntry {
  player : Player;
  roomCode : string
}.

(** [room.gameState]: the two values the source assigns. *)
Inductive GameState := Waiting | Drawing.

(** An element of [room.drawings] or [room.slogans]:
    [{ playerId, drawing | slogan, timestamp }]. *)
Record Submission := mkSubmission {
  playerId : string;
  payload : string;
  timestamp : Z
}.

Module Room.
Record t := mk {
  code : string;
  host : string;
  players : list Player;
  gameState : GameState;
  drawings : list Submission;
  slogans : list Submission
}.
End Room.

(** The closure of the [setInterval] callback of [startGame]: the room code
    it broadcasts to, its [countdown] variable, and whether the interval is
    still armed ([clearInterval] disarms it).  The handle returned by
    [setInterval] is the position of the timer in [timers], which only grows. *)
Record Timer := mkTimer {
  timerRoom : string;
  countdown : Z;
  armed : bool
}.

Record State := mkState {
  rooms : gmap string Room.t;
  players : gmap string Entry;
  groups : gmap string (gset string);
  timers : list Timer
}.

Definition init : State := mkState ∅ ∅ ∅ [].

(** ** Outbound events *)

Inductive Msg :=
| RoomCreated (roomCode playerId : string)
| RoomJoined (roomCode : string) (players : list Player) (playerId : string)
| PlayerJoined (p : Player)
| Error (text : string)
| GameStarting (countdown : Z)
| CountdownUpdate (countdown : Z)
| PhaseUpdate (phase : GameState) (timer : Z)
| DrawingReceived (player : string) (total : nat)
| SloganReceived (player : string) (total : nat)
| ChatMessage (player message time : string)
| NewHost (p : Player)
| PlayerLeft (playerId : string).

Inductive Target :=
| ToSocket (s : string)
| ToRoom (code : string).

(** One call of [emit]: whom it was addressed to, the sockets it reached,
    and the event. *)
Record Emission := mkEmission {
  target : Target;
  recipients : gset string;
  msg : Msg
}.

Definition members (st : State) (code : string) : gset string :=
  default ∅ (groups st !! code).

(** [socket.emit(...)] *)
Definition socket_emit (s : string) (m : Msg) : Emission :=
  mkEmission (ToSocket s) {[ s ]} m.

(** [io.to(code).emit(...)] *)
Definition io_to_emit (st : State) (code : string) (m : Msg) : Emission :=
  mkEmission (ToRoom code) (members st code) m.

(** [socket.join(code)] *)
Definition socket_join (s code : string) (g : gmap string (gset string))
  : gmap string (gset string) :=
  <[code := {[ s ]} ∪ default ∅ (g !! code)]> g.

(** What the transport does before 'disconnect' is dispatched. *)
Definition leave_all (s : string) (g : gmap string (gset string))
  : gmap string (gset string) :=
  (λ members, members ∖ {[ s ]}) <$> g.

Definition room_not_found : string := "Sala não encontrada!".
Definition room_full : string := "Sala cheia! Máximo 8 jogadores.".
Definition not_enough_players : string := "Mínimo 2 jogadores!".

(** ** Handlers *)

Definition createRoom (st : State) (s playerName roomCode : string)
  : State * list Emission :=
  let p := mkPlayer s playerName true in
  let room := Room.mk roomCode s [p] Waiting [] [] in
  let st' := mkState (<[roomCode := room]> (rooms st))
                     (<[s := mkEntry p roomCode]> (players st))
                     (socket_join s roomCode (groups st))
                     (timers st) in
  (st', [socket_emit s (RoomCreated roomCode s)]).

Definition joinRoom (st : State) (s roomCode playerName : string)
  : State * list Emission :=
  match rooms st !! roomCode with
  | None => (st, [socket_emit s (Error room_not_found)])
  | Some room =>
    if bool_decide (8 ≤ length (Room.players room))%nat then
      (st, [socket_emit s (Error room_full)])
    else
      let p := mkPlayer s playerName false in
      let room' := Room.mk (Room.code room) (Room.host room)
                           (Room.players room ++ [p]) (Room.gameState room)
                           (Room.drawings room) (Room.slogans room) in
      let st' := mkState (<[roomCode := room']> (rooms st))
                         (<[s := mkEntry p roomCode]> (players st))
                         (socket_join s roomCode (groups st))
                         (timers st) in
      (st', [socket_emit s (RoomJoined roomCode (Room.players room') s);
             io_to_emit st' roomCode (PlayerJoined p)])
  end.

Definition startGame (st : State) (s roomCode : string)
  : State * list Emission :=
  match rooms st !! roomCode with
  | None => (st, [])
  | Some room =>
    if bool_decide (Room.host room ≠ s) then (st, [])
    else if bool_decide (length (Room.players room) < 2)%nat then
      (st, [socket_emit s (Error not_enough_players)])
    else
      let room' := Room.mk (Room.code room) (Room.host room)
                           (Room.players room) Drawing
                           (Room.drawings room) (Room.slogans room) in
      let st' := mkState (<[roomCode := room']> (rooms st)) (players st)
                         (groups st)
                         (timers st ++ [mkTimer roomCode 3 true]) in
      (st', [io_to_emit st' roomCode (GameStarting 3)])
  end.

(** One run of the callback given to [setInterval] by [startGame], for the
    timer with handle [t].  A cleared interval does not run. *)
Definition tick (st : State) (t : nat) : State * list Emission :=
  match timers st !! t with
  | None => (st, [])
  | Some tm =>
    if armed tm then
      let c := countdown tm - 1 in
      let update := io_to_emit st (timerRoom tm) (CountdownUpdate c) in
      if bool_decide (c ≤ 0) then
        (mkState (rooms st) (players st) (groups st)
                 (<[t := mkTimer (timerRoom tm) c false]> (timers st)),
         [update; io_to_emit st (timerRoom tm) (PhaseUpdate Drawing 90)])
      else
        (mkState (rooms st) (players st) (groups st)
                 (<[t := mkTimer (timerRoom tm) c true]> (timers st)),
         [update])
    else (st, [])
  end.

Definition submitDrawing (st : State) (s drawing : string) (now : Z)
  : State * list Emission :=
  match players st !! s with
  | None => (st, [])
  | Some e =>
    match rooms st !! roomCode e with
    | None => (st, [])
    | Some room =>
      let room' := Room.mk (Room.code room) (Room.host room)
                           (Room.players room) (Room.gameState room)
                           (Room.drawings room ++ [mkSubmission s drawing now])
                           (Room.slogans room) in
      let st' := mkState (<[roomCode e := room']> (rooms st)) (players st)
                         (groups st) (timers st) in
      (st', [io_to_emit st' (Room.code room)
               (DrawingReceived (name (player e))
                                (length (Room.drawings room')))])
    end
  end.

Definition submitSlogan (st : State) (s slogan : string) (now : Z)
  : State * list Emission :=
  match players st !! s with
  | None => (st, [])
  | Some e =>
    match rooms st !! roomCode e with
    | None => (st, [])
    | Some room =>
      let room' := Room.mk (Room.code room) (Room.host room)
                           (Room.players room) (Room.gameState room)
                           (Room.drawings room)
                           (Room.slogans room ++ [mkSubmission s slogan now]) in
      let st' := mkState (<[roomCode e := room']> (rooms st)) (players st)
                         (groups st) (timers st) in
      (st', [io_to_emit st' (Room.code room)
               (SloganReceived (name (player e))
                               (length (Room.slogans room')))])
    end
  end.

Definition chatMessage (st : State) (s message time : string)
  : State * list Emission :=
  match players st !! s with
  | None => (st, [])
  | Some e =>
    (st, [io_to_emit st (roomCode e)
            (ChatMessage (name (player e)) message time)])
  end.

(** [room.players[0].isHost = true] *)
Definition promote_first (ps : list Player) : list Player :=
  match ps with
  | [] => []
  | p :: rest => mkPlayer (id p) (name p) true :: rest
  end.

(** [room.players.filter(p => p.id !== socket.id)] *)
Definition without (s : string) (ps : list Player) : list Player :=
  filter (λ p, id p ≠ s) ps.

Definition disconnect (st0 : State) (s : string) : State * list Emission :=
  let st := mkState (rooms st0) (players st0) (leave_all s (groups st0))
                    (timers st0) in
  match players st !! s with
  | None => (st, [])
  | Some e =>
    let '(rooms', out) :=
      match rooms st !! roomCode e with
      | None => (rooms st, [])
      | Some room =>
        let remaining := without s (Room.players room) in
        let room1 :=
          if bool_decide (Room.host room = s ∧ (0 < length remaining)%nat) then
            Room.mk (Room.code room) (default (Room.host room) (id <$> head remaining))
                    (promote_first remaining) (Room.gameState room)
                    (Room.drawings room) (Room.slogans room)
          else
            Room.mk (Room.code room) (Room.host room) remaining
                    (Room.gameState room) (Room.drawings room)
                    (Room.slogans room) in
        let out1 :=
          if bool_decide (Room.host room = s ∧ (0 < length remaining)%nat) then
            match head (Room.players room1) with
            | Some p => [io_to_emit st (Room.code room) (NewHost p)]
            | None => []
            end
          else [] in
        let stored := <[roomCode e := room1]> (rooms st) in
        if bool_decide (length (Room.players room1) = 0%nat) then
          (delete (Room.code room1) stored, out1)
        else
          (stored, out1 ++ [io_to_emit st (Room.code room) (PlayerLeft s)])
      end in
    (mkState rooms' (delete s (players st)) (groups st) (timers st), out)
  end.

(** ** The event loop *)

Inductive Event :=
| OnCreateRoom (s playerName roomCode : string)
| OnJoinRoom (s roomCode playerName : string)
| OnStartGame (s roomCode : string)
| OnSubmitDrawing (s drawing : string) (now : Z)
| OnSubmitSlogan (s slogan : string) (now : Z)
| OnChatMessage (s message time : string)
| OnDisconnect (s : string)
| OnTick (t : nat).

#[global] Instance Event_eq_dec : EqDecision Event.
Proof. solve_decision. Defined.

Definition step (st : State) (ev : Event) : State * list Emission :=
  match ev with
  | OnCreateRoom s n c => createRoom st s n c
  | OnJoinRoom s c n => joinRoom st s c n
  | OnStartGame s c => startGame st s c
  | OnSubmitDrawing s d now => submitDrawing st s d now
  | OnSubmitSlogan s d now => submitSlogan st s d now
  | OnChatMessage s m t => chatMessage st s m t
  | OnDisconnect s => disconnect st s
  | OnTick t => tick st t
  end.

(** Handlers run to completion one after the other. *)
Fixpoint run (st : State) (evs : list Event) : State * list Emission :=
  match evs with
  | [] => (st, [])
  | ev :: rest =>
    let '(st1, out1) := step st ev in
    let '(st2, out2) := run st1 rest in
    (st2, out1 ++ out2)
  end.

Definition exec (st : State) (evs : list Event) : State := (run st evs).1.

(** The emissions made by the callbacks of timer [t] while [evs] is handled. *)
Fixpoint fired (t : nat) (st : State) (evs : list Event) : list Emission :=
  match evs with
  | [] => []
  | ev :: rest =>
    (match ev with
     | OnTick t' => if bool_decide (t' = t) then (step st ev).2 else []
     | _ => []
     end) ++ fired t (step st ev).1 rest
  end.

(** The number of runs of the callback of timer [t] in [evs]. *)
Fixpoint ticks (t : nat) (evs : list Event) : nat :=
  match evs with
  | [] => 0
  | OnTick t' :: rest => (if bool_decide (t' = t) then 1 else 0) + ticks t rest
  | _ :: rest => ticks t rest
  end.

(** An emission without the set of sockets it reached. *)
Definition addressed (e : Emission) : Target * Msg := (target e, msg e).

(** [generateRoomCode] has no check against the live registry; a trace in
    which every generated code is free when it is drawn: *)
Definition fresh_code (st : State) (ev : Event) : Prop :=
  match ev with
  | OnCreateRoom _ _ c => rooms st !! c = None
  | _ => True
  end.

Fixpoint fresh_codes (st : State) (evs : list Event) : Prop :=
  match evs with
  | [] => True
  | ev :: rest => fresh_code st ev ∧ fresh_codes (step st ev).1 rest
  end.

(** ** Vocabulary of the statements *)

(** [room.players.push(p)] *)
Definition joined (room : Room.t) (p : Player) : Room.t :=
  Room.mk (Room.code room) (Room.host room) (Room.players room ++ [p])
          (Room.gameState room) (Room.drawings room) (Room.slogans room).

(** A run of join attempts on one room, by any sessions. *)
Definition join_attempts (c : string) (who : list (string * string)) : list Event :=
  (λ sn, OnJoinRoom sn.1 c sn.2) <$> who.

(** The claim about the joiner as the specification words it: the
    playerJoined broadcast of a successful join does not reach the joining
    session. *)
Definition spec_playerJoined_excludes_joiner : Prop :=
  ∀ st s c n room e,
    rooms st !! c = Some room → (length (Room.players room) < 8)%nat →
    e ∈ (joinRoom st s c n).2 → msg e = PlayerJoined (mkPlayer s n false) →
    s ∉ recipients e.

(** What the callbacks of a timer for room [c] whose [countdown] variable
    holds [k] emit in their next [n] runs. *)
Fixpoint script (c : string) (k : Z) (n : nat) : list (Target * Msg) :=
  match n with
  | O => []
  | S n' =>
    if bool_decide (k - 1 ≤ 0) then
      [(ToRoom c, CountdownUpdate (k - 1)); (ToRoom c, PhaseUpdate Drawing 90)]
    else (ToRoom c, CountdownUpdate (k - 1)) :: script c (k - 1) n'
  end.

(** The countdown as the specification words it. *)
Definition spec_countdown (c : string) : list (Target * Msg) :=
  [(ToRoom c, GameStarting 3);
   (ToRoom c, CountdownUpdate 3); (ToRoom c, CountdownUpdate 2);
   (ToRoom c, CountdownUpdate 1);
   (ToRoom c, PhaseUpdate Drawing 90)].

(** [room.drawings.push(d)] and [room.slogans.push(d)] *)
Definition with_drawing (room : Room.t) (d : Submission) : Room.t :=
  Room.mk (Room.code room) (Room.host room) (Room.players room)
          (Room.gameState room) (Room.drawings room ++ [d]) (Room.slogans room).

Definition with_slogan (room : Room.t) (d : Submission) : Room.t :=
  Room.mk (Room.code room) (Room.host room) (Room.players room)
          (Room.gameState room) (Room.drawings room) (Room.slogans room ++ [d]).

(** The room after [room.players = ps] and [room.host = h]. *)
Definition with_roster (room : Room.t) (h : string) (ps : list Player) : Room.t :=
  Room.mk (Room.code room) h ps (Room.gameState room) (Room.drawings room)
          (Room.slogans room).

(** The player after [isHost = true]. *)
Definition promoted (p : Player) : Player := mkPlayer (id p) (name p) true.

(** Every room is stored under its own code and has at least one player. *)
Definition rooms_wf (st : State) : Prop :=
  ∀ c room, rooms st !! c = Some room →
    Room.code room = c ∧ Room.players room ≠ [].

(** [creates c ev]: the event is a createRoom for which [generateRoomCode]
    returned [c]. *)
Definition creates (c : string) (ev : Event) : Prop :=
  match ev with
  | OnCreateRoom _ _ c' => c' = c
  | _ => False
  end.

(** [p] is the roster entry that the directory entry [e] of session [s] was
    copied from, up to a later promotion of [p]. *)
Definition mirrors (s : string) (e : Entry) (p : Player) : Prop :=
  id p = s ∧ name p = name (player e) ∧
  (isHost (player e) = true → isHost p = true).

(** Every directory entry has its roster entry, and every member of a
    broadcast group is in the roster of the room of that code. *)
Record consistent (st : State) : Prop := mkConsistent {
  consistent_dir : ∀ s e, players st !! s = Some e →
    id (player e) = s ∧
    ∃ room p, rooms st !! roomCode e = Some room ∧
              p ∈ Room.players room ∧ mirrors s e p;
  consistent_grp : ∀ c s, s ∈ members st c →
    ∃ room, rooms st !! c = Some room ∧ s ∈ id <$> Room.players room
}.

(** What a disconnect does to the rosters, seen from the other sessions:
    every roster entry of another session survives, possibly promoted. *)
Definition survives (p0 p1 : Player) : Prop :=
  id p1 = id p0 ∧ name p1 = name p0 ∧ (isHost p0 = true → isHost p1 = true).

(** The directory places session [s] in room [c]; the roster of room [c]
    has an entry of session [s]. *)
Definition in_directory (st : State) (s c : string) : Prop :=
  ∃ e, players st !! s = Some e ∧ roomCode e = c.

Definition in_roster (st : State) (s c : string) : Prop :=
  ∃ room p, rooms st !! c = Some room ∧ p ∈ Room.players room ∧ id p = s.

(** The agreement as the specification words it: same presence, same
    [isHost], in every reachable state. *)
Definition spec_same_presence (st : State) : Prop :=
  ∀ s c, in_directory st s c ↔ in_roster st s c.

Definition spec_same_isHost (st : State) : Prop :=
  ∀ s e room p,
    players st !! s = Some e → rooms st !! roomCode e = Some room →
    p ∈ Room.players room → id p = s → isHost (player e) = isHost p.

Definition spec_directory_agrees : Prop :=
  ∀ evs, spec_same_presence (exec init evs) ∧ spec_same_isHost (exec init evs).

(** The host migration as the specification words it: whenever the session
    that a room's host field names disconnects and the roster has other
    players, the first of them becomes host, flagged and in the roster. *)
Definition spec_host_disconnect_promotes : Prop :=
  ∀ evs s c room,
    rooms (exec init evs) !! c = Some room → Room.host room = s →
    without s (Room.players room) ≠ [] →
    ∃ p rest room',
      without s (Room.players room) = p :: rest ∧
      rooms (disconnect (exec init evs) s).1 !! c = Some room' ∧
      Room.host room' = id p ∧
      (∃ q, q ∈ Room.players room' ∧ id q = id p ∧ isHost q = true) ∧
      Room.host room' ∈ id <$> Room.players room'.

(** The room destruction as the specification words it: when the last
    player that a room's roster holds disconnects, the room is removed. *)
Definition spec_last_player_removes_room : Prop :=
  ∀ evs s c room,
    rooms (exec init evs) !! c = Some room →
    without s (Room.players room) = [] →
    rooms (disconnect (exec init evs) s).1 !! c = None.

(** The cancellation as the specification words it: a timer never emits for
    a room that is not in the registry. *)
Definition spec_silent_after_destruction : Prop :=
  ∀ evs t tm,
    timers (exec init evs) !! t = Some tm →
    rooms (exec init evs) !! timerRoom tm = None →
    (tick (exec init evs) t).2 = [].

(** ** The rest of the server *)

(** [generateRoomCode]: [Array.from({length: 6}, () => chars[...]).join('')].
    [rnd i] is the value of [Math.floor(Math.random() * chars.length)] in
    the call for position [i]; an index outside [chars] would give
    [undefined], which [join] writes as the empty string. *)
Definition chars : string := "ABCDEFGHIJKLMNOPQRSTUVWXYZ".

Definition char_at (i : nat) : list Ascii.ascii :=
  option_list (String.list_ascii_of_string chars !! i).

Definition generateRoomCode (rnd : nat → nat) : string :=
  String.string_of_list_ascii (concat ((λ i, char_at (rnd i)) <$> seq 0 6)).

(** The session an event comes from; a timer callback comes from none. *)
Definition actor (ev : Event) : option string :=
  match ev with
  | OnCreateRoom s _ _ | OnJoinRoom s _ _ | OnStartGame s _
  | OnSubmitDrawing s _ _ | OnSubmitSlogan s _ _ | OnChatMessage s _ _
  | OnDisconnect s => Some s
  | OnTick _ => None
  end.

(** The code of the room that the handler of an event looks up. *)
Definition room_of (st : State) (ev : Event) : option string :=
  match ev with
  | OnCreateRoom _ _ c | OnJoinRoom _ c _ | OnStartGame _ c => Some c
  | OnSubmitDrawing s _ _ | OnSubmitSlogan s _ _ | OnDisconnect s =>
    roomCode <$> players st !! s
  | OnChatMessage _ _ _ | OnTick _ => None
  end.

(** What every room of the registry satisfies: it is stored under its own
    code, has between 1 and 8 players, its host has a roster entry that is
    flagged [isHost], and only the host's entries are flagged. *)
Definition room_ok (c : string) (room : Room.t) : Prop :=
  Room.code room = c ∧
  (1 ≤ length (Room.players room) ≤ 8)%nat ∧
  (∃ p, p ∈ Room.players room ∧ id p = Room.host room ∧ isHost p = true) ∧
  (∀ p, p ∈ Room.players room → isHost p = true → id p = Room.host room).

Definition registry_ok (st : State) : Prop :=
  ∀ c room, rooms st !! c = Some room → room_ok c room.

(** A timer's [countdown] stays between 0 and 3 and the interval is armed
    exactly while it is positive. *)
Definition timer_ok (tm : Timer) : Prop :=
  0 ≤ countdown tm ≤ 3 ∧ (armed tm = true ↔ 0 < countdown tm).

(** Every session of the directory is in the broadcast group of the room
    its entry names. *)
Definition directory_in_groups (st : State) : Prop :=
  ∀ s e, players st !! s = Some e → s ∈ members st (roomCode e).

(** ** Basic facts about the event loop *)

Lemma exec_nil st : exec st [] = st.
Proof. reflexivity. Qed.

Lemma exec_cons st ev evs : exec st (ev :: evs) = exec (step st ev).1 evs.
Proof.
  unfold exec. simpl. destruct (step st ev) as [st1 out1]. simpl.
  destruct (run st1 evs) as [st2 out2]. reflexivity.
Qed.

(** ** joinRoom *)

Lemma joinRoom_unknown st s c n :
  rooms st !! c = None →
  joinRoom st s c n = (st, [socket_emit s (Error room_not_found)]).
Proof. intros H. unfold joinRoom. by rewrite H. Qed.

Lemma joinRoom_full st s c n room :
  rooms st !! c = Some room → (8 ≤ length (Room.players room))%nat →
  joinRoom st s c n = (st, [socket_emit s (Error room_full)]).
Proof. intros H Hlen. unfold joinRoom. rewrite H. by rewrite bool_decide_true. Qed.

Lemma joinRoom_ok st s c n room :
  rooms st !! c = Some room → (length (Room.players room) < 8)%nat →
  joinRoom st s c n =
    (mkState (<[c := joined room (mkPlayer s n false)]> (rooms st))
             (<[s := mkEntry (mkPlayer s n false) c]> (players st))
             (socket_join s c (groups st)) (timers st),
     [socket_emit s (RoomJoined c (Room.players room ++ [mkPlayer s n false]) s);
      mkEmission (ToRoom c) ({[ s ]} ∪ members st c)
                 (PlayerJoined (mkPlayer s n false))]).
Proof.
  intros H Hlen. unfold joinRoom. rewrite H.
  rewrite bool_decide_false by lia. simpl.
  unfold io_to_emit, members, socket_join. simpl.
  by rewrite lookup_insert_eq.
Qed.

Lemma join_attempts_fill c who : ∀ st room,
  rooms st !! c = Some room →
  ∃ room', rooms (exec st (join_attempts c who)) !! c = Some room' ∧
           (Nat.min (length (Room.players room) + length who) 8
              ≤ length (Room.players room'))%nat.
Proof.
  induction who as [|[s n] who IH]; intros st room Hroom; simpl.
  - rewrite exec_nil. exists room. split; [done|lia].
  - rewrite exec_cons. simpl.
    destruct (decide (8 ≤ length (Room.players room))%nat) as [Hfull|Hfree].
    + rewrite (joinRoom_full _ _ _ _ _ Hroom Hfull). simpl.
      destruct (IH st room Hroom) as (room' & Hroom' & Hlen).
      exists room'. split; [done|lia].
    + rewrite (joinRoom_ok _ _ _ _ room Hroom) by lia. simpl.
      destruct (IH (mkState (<[c := joined room (mkPlayer s n false)]> (rooms st))
                            (<[s := mkEntry (mkPlayer s n false) c]> (players st))
                            (socket_join s c (groups st)) (timers st))
                   (joined room (mkPlayer s n false)))
        as (room' & Hroom' & Hlen).
      { simpl. apply lookup_insert_eq. }
      exists room'. split; [done|].
      simpl in Hlen. rewrite length_app in Hlen. simpl in Hlen. lia.
Qed.

(** C5: joinRoom answers the "room not found" error when the code names no
    live room; on a live room it answers the "room full" error exactly when
    the roster has at least 8 players, and otherwise appends a non-host
    player, records the session in the directory and replies with the roster
    and the new player's id.  After eight join attempts on a live room (the
    ninth and every later attempt of a run of joins) the room is full. *)
Theorem joinRoom_result st s c n :
  (rooms st !! c = None →
   joinRoom st s c n = (st, [socket_emit s (Error room_not_found)])) ∧
  (∀ room, rooms st !! c = Some room →
     ((8 ≤ length (Room.players room))%nat ↔
      joinRoom st s c n = (st, [socket_emit s (Error room_full)])) ∧
     ((length (Room.players room) < 8)%nat →
      let p := mkPlayer s n false in
      let st' := (joinRoom st s c n).1 in
      rooms st' !! c = Some (joined room p) ∧
      isHost p = false ∧
      players st' !! s = Some (mkEntry p c) ∧
      (joinRoom st s c n).2 !! 0%nat
        = Some (socket_emit s (RoomJoined c (Room.players room ++ [p]) s))) ∧
     (∀ who, (8 ≤ length who)%nat →
        msg <$> (joinRoom (exec st (join_attempts c who)) s c n).2
          = [Error room_full])).
Proof.
  split; [apply joinRoom_unknown|].
  intros room Hroom. split; [|split].
  - split; [by apply joinRoom_full|].
    intros Hres. destruct (decide (8 ≤ length (Room.players room))%nat); [done|].
    rewrite (joinRoom_ok _ _ _ _ room Hroom) in Hres by lia. discriminate.
  - intros Hlen. rewrite (joinRoom_ok _ _ _ _ room Hroom Hlen). simpl.
    by rewrite !lookup_insert_eq.
  - intros who Hwho.
    destruct (join_attempts_fill c who st room Hroom) as (room' & Hroom' & Hlen).
    rewrite (joinRoom_full _ _ _ _ room' Hroom') by lia. done.
Qed.

(** The ninth attempt on a freshly created room, evaluated. *)
Lemma joinRoom_result_witness :
  let st := exec init [OnCreateRoom "a" "Ann" "ABCDEF"] in
  rooms st !! "ABCDEF" = Some (Room.mk "ABCDEF" "a" [mkPlayer "a" "Ann" true] Waiting [] []) ∧
  rooms st !! "QQQQQQ" = None ∧
  joinRoom st "b" "QQQQQQ" "Bob" = (st, [socket_emit "b" (Error room_not_found)]) ∧
  rooms (joinRoom st "b" "ABCDEF" "Bob").1 !! "ABCDEF"
    = Some (Room.mk "ABCDEF" "a" [mkPlayer "a" "Ann" true; mkPlayer "b" "Bob" false]
                    Waiting [] []) ∧
  msg <$> (joinRoom (exec st (join_attempts "ABCDEF"
             [("b","B"); ("c","C"); ("d","D"); ("e","E");
              ("f","F"); ("g","G"); ("h","H"); ("i","I")])) "j" "ABCDEF" "J").2
    = [Error room_full].
Proof.
  intros st.
  assert (Hroom : rooms st !! "ABCDEF"
            = Some (Room.mk "ABCDEF" "a" [mkPlayer "a" "Ann" true] Waiting [] []))
    by (vm_compute; reflexivity).
  assert (Hnone : rooms st !! "QQQQQQ" = None) by (vm_compute; reflexivity).
  split; [exact Hroom|]. split; [exact Hnone|].
  split; [exact (proj1 (joinRoom_result st "b" "QQQQQQ" "Bob") Hnone)|].
  destruct (proj2 (joinRoom_result st "b" "ABCDEF" "Bob") _ Hroom) as (_ & Hok & _).
  split.
  - exact (proj1 (Hok ltac:(simpl; lia))).
  - destruct (proj2 (joinRoom_result st "j" "ABCDEF" "J") _ Hroom) as (_ & _ & Hninth).
    apply Hninth. simpl. lia.
Defined.

(** C3, as stated, fails: [socket.join] runs before [io.to(code).emit], so
    when b joins the room created by a, playerJoined reaches both a and b. *)
Lemma playerJoined_reaches_joiner :
  let st := exec init [OnCreateRoom "a" "Ann" "ABCDEF"] in
  (joinRoom st "b" "ABCDEF" "Bob").2
    = [socket_emit "b" (RoomJoined "ABCDEF"
         [mkPlayer "a" "Ann" true; mkPlayer "b" "Bob" false] "b");
       mkEmission (ToRoom "ABCDEF") ({[ "b" ]} ∪ {[ "a" ]})
         (PlayerJoined (mkPlayer "b" "Bob" false))] ∧
  ¬ spec_playerJoined_excludes_joiner.
Proof.
  intros st.
  assert (Hroom : rooms st !! "ABCDEF"
            = Some (Room.mk "ABCDEF" "a" [mkPlayer "a" "Ann" true] Waiting [] []))
    by (vm_compute; reflexivity).
  assert (Hout : (joinRoom st "b" "ABCDEF" "Bob").2
    = [socket_emit "b" (RoomJoined "ABCDEF"
         [mkPlayer "a" "Ann" true; mkPlayer "b" "Bob" false] "b");
       mkEmission (ToRoom "ABCDEF") ({[ "b" ]} ∪ {[ "a" ]})
         (PlayerJoined (mkPlayer "b" "Bob" false))]).
  { assert (Hm : members st "ABCDEF" = {[ "a" ]}) by (vm_compute; reflexivity).
    rewrite (joinRoom_ok _ _ _ _ _ Hroom) by (simpl; lia). simpl.
    by rewrite Hm. }
  split; [exact Hout|].
  intros Hspec.
  apply (Hspec st "b" "ABCDEF" "Bob" _
           (mkEmission (ToRoom "ABCDEF") ({[ "b" ]} ∪ {[ "a" ]})
              (PlayerJoined (mkPlayer "b" "Bob" false))) Hroom).
  - simpl. lia.
  - rewrite Hout. set_solver.
  - reflexivity.
  - simpl. set_solver.
Qed.

(** C3 (amended): a successful joinRoom sends the joiner a unicast roomJoined
    with the full roster (the joiner included) and its own id, and then
    broadcasts playerJoined to the room's group, which by then consists of the
    sessions that were in it before the join together with the joiner. *)
Theorem joinRoom_emissions st s c n room :
  rooms st !! c = Some room → (length (Room.players room) < 8)%nat →
  (joinRoom st s c n).2 =
    [mkEmission (ToSocket s) {[ s ]}
       (RoomJoined c (Room.players room ++ [mkPlayer s n false]) s);
     mkEmission (ToRoom c) ({[ s ]} ∪ members st c)
       (PlayerJoined (mkPlayer s n false))].
Proof. intros Hroom Hlen. by rewrite (joinRoom_ok _ _ _ _ _ Hroom Hlen). Qed.

Lemma joinRoom_emissions_witness :
  (joinRoom (createRoom init "a" "Ann" "ABCDEF").1 "b" "ABCDEF" "Bob").2 =
    [mkEmission (ToSocket "b") {[ "b" ]}
       (RoomJoined "ABCDEF" ([mkPlayer "a" "Ann" true] ++ [mkPlayer "b" "Bob" false]) "b");
     mkEmission (ToRoom "ABCDEF")
       ({[ "b" ]} ∪ members (createRoom init "a" "Ann" "ABCDEF").1 "ABCDEF")
       (PlayerJoined (mkPlayer "b" "Bob" false))].
Proof.
  apply (joinRoom_emissions (createRoom init "a" "Ann" "ABCDEF").1 "b" "ABCDEF" "Bob"
           (Room.mk "ABCDEF" "a" [mkPlayer "a" "Ann" true] Waiting [] [])).
  - vm_compute. reflexivity.
  - simpl. lia.
Defined.

(** ** startGame *)

(** C6: startGame on a code that names no room, or by a session that is not
    the room's host, emits nothing and leaves the state as it was; on a room
    of fewer than 2 players the host gets the "minimum 2 players" error (a
    unicast) and the state is as it was.  In all three cases the state,
    and with it every room's gameState, is unchanged. *)
Theorem startGame_rejected st s c :
  (rooms st !! c = None → startGame st s c = (st, [])) ∧
  (∀ room, rooms st !! c = Some room → Room.host room ≠ s →
     startGame st s c = (st, [])) ∧
  (∀ room, rooms st !! c = Some room → Room.host room = s →
     (length (Room.players room) < 2)%nat →
     startGame st s c
       = (st, [mkEmission (ToSocket s) {[ s ]} (Error not_enough_players)])).
Proof.
  unfold startGame. split; [|split].
  - intros H. by rewrite H.
  - intros room H Hhost. rewrite H. by rewrite bool_decide_true.
  - intros room H Hhost Hlen. rewrite H.
    rewrite bool_decide_false by (intros Hne; by apply Hne).
    by rewrite bool_decide_true.
Qed.

Lemma startGame_rejected_witness :
  let st := exec init [OnCreateRoom "a" "Ann" "ABCDEF"] in
  startGame st "a" "QQQQQQ" = (st, []) ∧
  startGame st "b" "ABCDEF" = (st, []) ∧
  startGame st "a" "ABCDEF"
    = (st, [mkEmission (ToSocket "a") {[ "a" ]} (Error not_enough_players)]).
Proof.
  intros st.
  assert (Hroom : rooms st !! "ABCDEF"
            = Some (Room.mk "ABCDEF" "a" [mkPlayer "a" "Ann" true] Waiting [] []))
    by (vm_compute; reflexivity).
  split; [|split].
  - apply (proj1 (startGame_rejected st "a" "QQQQQQ")). vm_compute. reflexivity.
  - apply (proj1 (proj2 (startGame_rejected st "b" "ABCDEF")) _ Hroom).
    simpl. discriminate.
  - apply (proj2 (proj2 (startGame_rejected st "a" "ABCDEF")) _ Hroom).
    + reflexivity.
    + simpl. lia.
Defined.

(** ** The countdown armed by startGame *)

Lemma step_timers_other st ev t tm :
  timers st !! t = Some tm → ev ≠ OnTick t →
  timers (step st ev).1 !! t = Some tm.
Proof.
  intros Ht Hev. destruct ev as [s n c|s c n|s c|s d now|s d now|s m tme|s|t']; simpl.
  - done.
  - unfold joinRoom. destruct (rooms st !! c); [|done].
    by case_bool_decide.
  - unfold startGame. destruct (rooms st !! c); [|done].
    repeat case_bool_decide; try done.
    simpl. by apply lookup_app_l_Some.
  - unfold submitDrawing. destruct (players st !! s); [|done].
    by destruct (rooms st !! _).
  - unfold submitSlogan. destruct (players st !! s); [|done].
    by destruct (rooms st !! _).
  - unfold chatMessage. by destruct (players st !! s).
  - unfold disconnect. simpl. destruct (players st !! s) as [e|]; [|done].
    destruct (rooms st !! roomCode e); [|done].
    by repeat case_bool_decide.
  - assert (t' ≠ t) by congruence.
    unfold tick. destruct (timers st !! t') as [tm'|]; [|done].
    destruct (armed tm'); [|done].
    case_bool_decide; simpl; by rewrite list_lookup_insert_ne.
Qed.

Lemma fired_disarmed t evs : ∀ st tm,
  timers st !! t = Some tm → armed tm = false → fired t st evs = [].
Proof.
  induction evs as [|ev evs IH]; intros st tm Ht Hoff; [done|].
  simpl. destruct (decide (ev = OnTick t)) as [->|Hev].
  - simpl. rewrite bool_decide_true by done.
    unfold tick. rewrite Ht, Hoff. simpl. by apply (IH st tm).
  - rewrite (IH _ tm) by (by try apply step_timers_other).
    destruct ev; try done. case_bool_decide; [congruence|done].
Qed.

Lemma fired_armed t c evs : ∀ st k,
  timers st !! t = Some (mkTimer c k true) →
  addressed <$> fired t st evs = script c k (ticks t evs).
Proof.
  induction evs as [|ev evs IH]; intros st k Ht; [done|].
  destruct (decide (ev = OnTick t)) as [->|Hev].
  - simpl. rewrite bool_decide_true by done.
    unfold tick. rewrite Ht. simpl.
    pose proof (lookup_lt_Some _ _ _ Ht) as Hlt.
    case_bool_decide; simpl.
    + rewrite (fired_disarmed t evs _ (mkTimer c (k - 1) false)); [done| |done].
      simpl. by apply list_lookup_insert_eq.
    + f_equal. apply IH. simpl. by apply list_lookup_insert_eq.
  - assert (Hrest := IH _ k (step_timers_other st ev t _ Ht Hev)).
    destruct ev; simpl in *; try done.
    case_bool_decide; [congruence|done].
Qed.

(** C1, as stated, fails: the callback decrements [countdown] before it
    emits, so after a creates a room, b joins and a starts the game, the
    three countdownUpdate events carry 2, 1, 0, not 3, 2, 1. *)
Lemma countdown_not_3_2_1 :
  let st := exec init [OnCreateRoom "a" "Ann" "ABCDEF"; OnJoinRoom "b" "ABCDEF" "Bob"] in
  rooms st !! "ABCDEF"
    = Some (Room.mk "ABCDEF" "a" [mkPlayer "a" "Ann" true; mkPlayer "b" "Bob" false]
                    Waiting [] []) ∧
  addressed <$> ((startGame st "a" "ABCDEF").2 ++
                 fired 0 (startGame st "a" "ABCDEF").1 [OnTick 0; OnTick 0; OnTick 0])
    = [(ToRoom "ABCDEF", GameStarting 3);
       (ToRoom "ABCDEF", CountdownUpdate 2); (ToRoom "ABCDEF", CountdownUpdate 1);
       (ToRoom "ABCDEF", CountdownUpdate 0);
       (ToRoom "ABCDEF", PhaseUpdate Drawing 90)] ∧
  addressed <$> ((startGame st "a" "ABCDEF").2 ++
                 fired 0 (startGame st "a" "ABCDEF").1 [OnTick 0; OnTick 0; OnTick 0])
    ≠ spec_countdown "ABCDEF".
Proof.
  intros st.
  assert (Hout : addressed <$> ((startGame st "a" "ABCDEF").2 ++
                 fired 0 (startGame st "a" "ABCDEF").1 [OnTick 0; OnTick 0; OnTick 0])
    = [(ToRoom "ABCDEF", GameStarting 3);
       (ToRoom "ABCDEF", CountdownUpdate 2); (ToRoom "ABCDEF", CountdownUpdate 1);
       (ToRoom "ABCDEF", CountdownUpdate 0);
       (ToRoom "ABCDEF", PhaseUpdate Drawing 90)]) by (vm_compute; reflexivity).
  split; [vm_compute; reflexivity|]. split; [exact Hout|].
  rewrite Hout. unfold spec_countdown. discriminate.
Qed.

(** C1 (amended): a successful startGame (the requester is the host and the
    roster has at least 2 players) emits exactly one event, the broadcast
    gameStarting with countdown 3, and arms exactly one timer: the timers
    afterwards are the timers before, unchanged, followed by one armed timer
    for the room with countdown 3.  Whatever else is handled in between, the
    runs of that timer's callback broadcast countdownUpdate 2, then
    countdownUpdate 1, then countdownUpdate 0 immediately followed by
    phaseUpdate with phase drawing and timer 90, and nothing after that. *)
Theorem startGame_countdown st s c room evs :
  rooms st !! c = Some room → Room.host room = s →
  (2 ≤ length (Room.players room))%nat →
  let t := length (timers st) in
  addressed <$> (startGame st s c).2 = [(ToRoom c, GameStarting 3)] ∧
  timers (startGame st s c).1 = timers st ++ [mkTimer c 3 true] ∧
  addressed <$> fired t (startGame st s c).1 evs =
    match ticks t evs with
    | 0%nat => []
    | 1%nat => [(ToRoom c, CountdownUpdate 2)]
    | 2%nat => [(ToRoom c, CountdownUpdate 2); (ToRoom c, CountdownUpdate 1)]
    | _ => [(ToRoom c, CountdownUpdate 2); (ToRoom c, CountdownUpdate 1);
            (ToRoom c, CountdownUpdate 0); (ToRoom c, PhaseUpdate Drawing 90)]
    end.
Proof.
  intros Hroom Hhost Hlen t. unfold startGame. rewrite Hroom.
  rewrite bool_decide_false by (intros Hne; by apply Hne).
  rewrite bool_decide_false by lia. simpl.
  split; [done|]. split; [done|].
  rewrite (fired_armed t c evs _ 3).
  - by destruct (ticks t evs) as [|[|[|n]]].
  - simpl. unfold t. by rewrite lookup_app_r, Nat.sub_diag.
Qed.

Lemma startGame_countdown_witness :
  let st := exec init [OnCreateRoom "a" "Ann" "ABCDEF"; OnJoinRoom "b" "ABCDEF" "Bob"] in
  addressed <$> (startGame st "a" "ABCDEF").2 = [(ToRoom "ABCDEF", GameStarting 3)] ∧
  timers (startGame st "a" "ABCDEF").1 = timers st ++ [mkTimer "ABCDEF" 3 true] ∧
  addressed <$> fired 0 (startGame st "a" "ABCDEF").1
                  [OnTick 0; OnChatMessage "b" "hi" "10:00"; OnTick 0; OnTick 0; OnTick 0]
    = [(ToRoom "ABCDEF", CountdownUpdate 2); (ToRoom "ABCDEF", CountdownUpdate 1);
       (ToRoom "ABCDEF", CountdownUpdate 0); (ToRoom "ABCDEF", PhaseUpdate Drawing 90)].
Proof.
  intros st.
  apply (startGame_countdown st "a" "ABCDEF"
           (Room.mk "ABCDEF" "a" [mkPlayer "a" "Ann" true; mkPlayer "b" "Bob" false]
                    Waiting [] [])
           [OnTick 0; OnChatMessage "b" "hi" "10:00"; OnTick 0; OnTick 0; OnTick 0]).
  - vm_compute. reflexivity.
  - reflexivity.
  - simpl. lia.
Defined.

(** ** Submissions *)

Lemma submitDrawing_ok st s e room d now :
  players st !! s = Some e → rooms st !! roomCode e = Some room →
  submitDrawing st s d now =
    (mkState (<[roomCode e := with_drawing room (mkSubmission s d now)]> (rooms st))
             (players st) (groups st) (timers st),
     [mkEmission (ToRoom (Room.code room)) (members st (Room.code room))
        (DrawingReceived (name (player e)) (S (length (Room.drawings room))))]).
Proof.
  intros He Hroom. unfold submitDrawing. rewrite He, Hroom. simpl.
  rewrite length_app. simpl. by rewrite Nat.add_1_r.
Qed.

Lemma submitSlogan_ok st s e room d now :
  players st !! s = Some e → rooms st !! roomCode e = Some room →
  submitSlogan st s d now =
    (mkState (<[roomCode e := with_slogan room (mkSubmission s d now)]> (rooms st))
             (players st) (groups st) (timers st),
     [mkEmission (ToRoom (Room.code room)) (members st (Room.code room))
        (SloganReceived (name (player e)) (S (length (Room.slogans room))))]).
Proof.
  intros He Hroom. unfold submitSlogan. rewrite He, Hroom. simpl.
  rewrite length_app. simpl. by rewrite Nat.add_1_r.
Qed.

(** C9: a submitDrawing (submitSlogan) by a session that the directory knows
    and whose room exists appends one entry to the room's drawings (slogans)
    and broadcasts a total equal to the new length of that list.  A second
    submission by the same session appends a second entry and reports a total
    that is larger by one again: submissions are counted, not submitters. *)
Theorem submissions_counted st s e room :
  players st !! s = Some e → rooms st !! roomCode e = Some room →
  (∀ d now,
     let r := submitDrawing st s d now in
     rooms r.1 !! roomCode e = Some (with_drawing room (mkSubmission s d now)) ∧
     msg <$> r.2 = [DrawingReceived (name (player e))
                      (length (Room.drawings room ++ [mkSubmission s d now]))]) ∧
  (∀ d1 now1 d2 now2,
     let r := submitDrawing (submitDrawing st s d1 now1).1 s d2 now2 in
     Room.drawings <$> rooms r.1 !! roomCode e
       = Some (Room.drawings room ++ [mkSubmission s d1 now1; mkSubmission s d2 now2]) ∧
     msg <$> r.2 = [DrawingReceived (name (player e))
                      (length (Room.drawings room) + 2)]) ∧
  (∀ d now,
     let r := submitSlogan st s d now in
     rooms r.1 !! roomCode e = Some (with_slogan room (mkSubmission s d now)) ∧
     msg <$> r.2 = [SloganReceived (name (player e))
                      (length (Room.slogans room ++ [mkSubmission s d now]))]) ∧
  (∀ d1 now1 d2 now2,
     let r := submitSlogan (submitSlogan st s d1 now1).1 s d2 now2 in
     Room.slogans <$> rooms r.1 !! roomCode e
       = Some (Room.slogans room ++ [mkSubmission s d1 now1; mkSubmission s d2 now2]) ∧
     msg <$> r.2 = [SloganReceived (name (player e))
                      (length (Room.slogans room) + 2)]).
Proof.
  intros He Hroom. repeat split.
  - rewrite (submitDrawing_ok _ _ _ _ _ _ He Hroom). simpl. apply lookup_insert_eq.
  - rewrite (submitDrawing_ok _ _ _ _ _ _ He Hroom). simpl.
    rewrite length_app. simpl. by rewrite Nat.add_1_r.
  - rewrite (submitDrawing_ok _ _ _ _ d1 now1 He Hroom). simpl.
    erewrite submitDrawing_ok; [|exact He|simpl; apply lookup_insert_eq].
    simpl. rewrite lookup_insert_eq. simpl. by rewrite <- app_assoc.
  - rewrite (submitDrawing_ok _ _ _ _ d1 now1 He Hroom). simpl.
    erewrite submitDrawing_ok; [|exact He|simpl; apply lookup_insert_eq].
    simpl. rewrite length_app. simpl. do 2 f_equal. lia.
  - rewrite (submitSlogan_ok _ _ _ _ _ _ He Hroom). simpl. apply lookup_insert_eq.
  - rewrite (submitSlogan_ok _ _ _ _ _ _ He Hroom). simpl.
    rewrite length_app. simpl. by rewrite Nat.add_1_r.
  - rewrite (submitSlogan_ok _ _ _ _ d1 now1 He Hroom). simpl.
    erewrite submitSlogan_ok; [|exact He|simpl; apply lookup_insert_eq].
    simpl. rewrite lookup_insert_eq. simpl. by rewrite <- app_assoc.
  - rewrite (submitSlogan_ok _ _ _ _ d1 now1 He Hroom). simpl.
    erewrite submitSlogan_ok; [|exact He|simpl; apply lookup_insert_eq].
    simpl. rewrite length_app. simpl. do 2 f_equal. lia.
Qed.

Lemma submissions_counted_witness :
  let st := exec init [OnCreateRoom "a" "Ann" "ABCDEF"; OnJoinRoom "b" "ABCDEF" "Bob"] in
  msg <$> (submitDrawing st "b" "shirt" 1000).2 = [DrawingReceived "Bob" 1] ∧
  msg <$> (submitDrawing (submitDrawing st "b" "shirt" 1000).1 "b" "shirt" 1001).2
    = [DrawingReceived "Bob" 2] ∧
  msg <$> (submitSlogan (submitSlogan st "b" "wow" 1000).1 "b" "wow" 1001).2
    = [SloganReceived "Bob" 2].
Proof.
  intros st.
  destruct (submissions_counted st "b" (mkEntry (mkPlayer "b" "Bob" false) "ABCDEF")
              (Room.mk "ABCDEF" "a" [mkPlayer "a" "Ann" true; mkPlayer "b" "Bob" false]
                       Waiting [] []))
    as (H1 & H2 & _ & H4); [vm_compute; reflexivity..|].
  split; [exact (proj2 (H1 "shirt" 1000))|].
  split; [exact (proj2 (H2 "shirt" 1000 "shirt" 1001))|].
  exact (proj2 (H4 "wow" 1000 "wow" 1001)).
Defined.

(** ** Sessions that create or join a second room *)

(** C10: neither createRoom nor joinRoom takes the acting session out of a
    room it is already in.  When a session with an entry in room A's roster
    creates a room under another code B, or asks to join another room B,
    room A is as it was, so its roster still holds that entry; the session's
    one directory entry is replaced by one that names B (always for
    createRoom, for joinRoom when the join succeeds). *)
Theorem second_room_keeps_first st s n A B roomA p :
  rooms st !! A = Some roomA → p ∈ Room.players roomA → id p = s → A ≠ B →
  (rooms (createRoom st s n B).1 !! A = Some roomA ∧
   (∃ room, rooms (createRoom st s n B).1 !! A = Some room ∧ p ∈ Room.players room) ∧
   players (createRoom st s n B).1 !! s = Some (mkEntry (mkPlayer s n true) B)) ∧
  (rooms (joinRoom st s B n).1 !! A = Some roomA ∧
   (∃ room, rooms (joinRoom st s B n).1 !! A = Some room ∧ p ∈ Room.players room) ∧
   (∀ roomB, rooms st !! B = Some roomB → (length (Room.players roomB) < 8)%nat →
      players (joinRoom st s B n).1 !! s = Some (mkEntry (mkPlayer s n false) B))).
Proof.
  intros HA Hp Hid Hne.
  assert (HcA : rooms (createRoom st s n B).1 !! A = Some roomA).
  { simpl. by rewrite lookup_insert_ne. }
  assert (HjA : rooms (joinRoom st s B n).1 !! A = Some roomA).
  { unfold joinRoom. destruct (rooms st !! B) as [roomB|]; [|done].
    case_bool_decide; [done|]. simpl. by rewrite lookup_insert_ne. }
  split; split; try done.
  - split; [by exists roomA|]. simpl. apply lookup_insert_eq.
  - split; [by exists roomA|]. intros roomB HB Hlen.
    rewrite (joinRoom_ok _ _ _ _ _ HB Hlen). simpl. apply lookup_insert_eq.
Qed.

Lemma second_room_keeps_first_witness :
  let st := exec init [OnCreateRoom "a" "Ann" "ABCDEF"; OnCreateRoom "b" "Bob" "GHIJKL"] in
  rooms (createRoom st "a" "Ann" "MNOPQR").1 !! "ABCDEF"
    = Some (Room.mk "ABCDEF" "a" [mkPlayer "a" "Ann" true] Waiting [] []) ∧
  players (createRoom st "a" "Ann" "MNOPQR").1 !! "a"
    = Some (mkEntry (mkPlayer "a" "Ann" true) "MNOPQR") ∧
  rooms (joinRoom st "a" "GHIJKL" "Ann").1 !! "ABCDEF"
    = Some (Room.mk "ABCDEF" "a" [mkPlayer "a" "Ann" true] Waiting [] []) ∧
  players (joinRoom st "a" "GHIJKL" "Ann").1 !! "a"
    = Some (mkEntry (mkPlayer "a" "Ann" false) "GHIJKL").
Proof.
  intros st.
  assert (HA : rooms st !! "ABCDEF"
            = Some (Room.mk "ABCDEF" "a" [mkPlayer "a" "Ann" true] Waiting [] []))
    by (vm_compute; reflexivity).
  assert (Hp : mkPlayer "a" "Ann" true
               ∈ Room.players (Room.mk "ABCDEF" "a" [mkPlayer "a" "Ann" true] Waiting [] []))
    by (simpl; apply list_elem_of_here).
  destruct (second_room_keeps_first st "a" "Ann" "ABCDEF" "MNOPQR" _ _ HA Hp eq_refl)
    as ((H1 & _ & H2) & _); [discriminate|].
  destruct (second_room_keeps_first st "a" "Ann" "ABCDEF" "GHIJKL" _ _ HA Hp eq_refl)
    as (_ & H3 & _ & H4); [discriminate|].
  split; [exact H1|]. split; [exact H2|]. split; [exact H3|].
  apply (H4 (Room.mk "GHIJKL" "b" [mkPlayer "b" "Bob" true] Waiting [] [])).
  - vm_compute. reflexivity.
  - simpl. lia.
Defined.

(** ** disconnect *)

Lemma disconnect_unknown st s :
  players st !! s = None →
  disconnect st s
    = (mkState (rooms st) (players st) (leave_all s (groups st)) (timers st), []).
Proof. intros H. unfold disconnect. simpl. by rewrite H. Qed.

Lemma disconnect_roomless st s e :
  players st !! s = Some e → rooms st !! roomCode e = None →
  disconnect st s
    = (mkState (rooms st) (delete s (players st)) (leave_all s (groups st))
               (timers st), []).
Proof. intros He H. unfold disconnect. simpl. by rewrite He, H. Qed.

Lemma disconnect_last st s e room :
  players st !! s = Some e → rooms st !! roomCode e = Some room →
  without s (Room.players room) = [] →
  disconnect st s
    = (mkState (delete (Room.code room)
                  (<[roomCode e := with_roster room (Room.host room) []]> (rooms st)))
               (delete s (players st)) (leave_all s (groups st)) (timers st), []).
Proof.
  intros He Hroom Hrem. unfold disconnect. simpl. rewrite He, Hroom, Hrem. simpl.
  rewrite (bool_decide_false (Room.host room = s ∧ _)) by (intros [_ ?]; lia).
  reflexivity.
Qed.

Lemma disconnect_promote st s e room p rest :
  players st !! s = Some e → rooms st !! roomCode e = Some room →
  Room.host room = s → without s (Room.players room) = p :: rest →
  disconnect st s
    = (mkState (<[roomCode e := with_roster room (id p) (promoted p :: rest)]> (rooms st))
               (delete s (players st)) (leave_all s (groups st)) (timers st),
       [mkEmission (ToRoom (Room.code room))
          (default ∅ (leave_all s (groups st) !! Room.code room)) (NewHost (promoted p));
        mkEmission (ToRoom (Room.code room))
          (default ∅ (leave_all s (groups st) !! Room.code room)) (PlayerLeft s)]).
Proof.
  intros He Hroom Hhost Hrem. unfold disconnect. simpl. rewrite He, Hroom, Hrem. simpl.
  rewrite (bool_decide_true (Room.host room = s ∧ _)) by (split; [done|lia]).
  reflexivity.
Qed.

Lemma disconnect_leave st s e room p rest :
  players st !! s = Some e → rooms st !! roomCode e = Some room →
  Room.host room ≠ s → without s (Room.players room) = p :: rest →
  disconnect st s
    = (mkState (<[roomCode e := with_roster room (Room.host room) (p :: rest)]> (rooms st))
               (delete s (players st)) (leave_all s (groups st)) (timers st),
       [mkEmission (ToRoom (Room.code room))
          (default ∅ (leave_all s (groups st) !! Room.code room)) (PlayerLeft s)]).
Proof.
  intros He Hroom Hhost Hrem. unfold disconnect. simpl. rewrite He, Hroom, Hrem. simpl.
  rewrite (bool_decide_false (Room.host room = s ∧ _)) by (by intros [? _]).
  reflexivity.
Qed.

(** The first element that a filter keeps is the first element of the list
    that passes the test. *)
Lemma without_head s ps p rest :
  without s ps = p :: rest →
  ∃ pre post, ps = pre ++ p :: post ∧ Forall (λ q, id q = s) pre ∧ id p ≠ s.
Proof.
  unfold without. induction ps as [|q ps IH]; intros H; [done|].
  rewrite filter_cons in H. simpl in H. case_decide as Hq.
  - injection H as -> _. by exists [], ps.
  - destruct (IH H) as (pre & post & -> & Hpre & Hp).
    exists (q :: pre), post. repeat split; [|done].
    constructor; [|done]. by destruct (decide (id q = s)).
Qed.

(** C4, as stated, fails: a creates a room, b joins it, a creates a second
    room and disconnects.  The disconnect handler looks only at the room that
    a's directory entry names, the second one; the first room keeps a as its
    host and in its roster, b is not promoted and no newHost is emitted. *)
Lemma host_in_second_room_not_replaced :
  let st := exec init [OnCreateRoom "a" "Ann" "ABCDEF"; OnJoinRoom "b" "ABCDEF" "Bob";
                       OnCreateRoom "a" "Ann" "GHIJKL"] in
  rooms st !! "ABCDEF"
    = Some (Room.mk "ABCDEF" "a" [mkPlayer "a" "Ann" true; mkPlayer "b" "Bob" false]
                    Waiting [] []) ∧
  players st !! "a" = Some (mkEntry (mkPlayer "a" "Ann" true) "GHIJKL") ∧
  rooms (disconnect st "a").1 !! "ABCDEF"
    = Some (Room.mk "ABCDEF" "a" [mkPlayer "a" "Ann" true; mkPlayer "b" "Bob" false]
                    Waiting [] []) ∧
  (disconnect st "a").2 = [] ∧
  ¬ spec_host_disconnect_promotes.
Proof.
  intros st.
  assert (Hroom : rooms st !! "ABCDEF"
    = Some (Room.mk "ABCDEF" "a" [mkPlayer "a" "Ann" true; mkPlayer "b" "Bob" false]
                    Waiting [] [])) by (vm_compute; reflexivity).
  assert (Hafter : rooms (disconnect st "a").1 !! "ABCDEF"
    = Some (Room.mk "ABCDEF" "a" [mkPlayer "a" "Ann" true; mkPlayer "b" "Bob" false]
                    Waiting [] [])) by (vm_compute; reflexivity).
  split; [exact Hroom|]. split; [vm_compute; reflexivity|].
  split; [exact Hafter|]. split; [vm_compute; reflexivity|].
  intros Hspec.
  destruct (Hspec [OnCreateRoom "a" "Ann" "ABCDEF"; OnJoinRoom "b" "ABCDEF" "Bob";
                   OnCreateRoom "a" "Ann" "GHIJKL"] "a" "ABCDEF" _ Hroom eq_refl)
    as (p & rest & room' & Hw & Hroom' & Hhost & _).
  { vm_compute. discriminate. }
  fold st in Hroom'. rewrite Hafter in Hroom'. injection Hroom' as <-.
  vm_compute in Hw. injection Hw as <- _. simpl in Hhost. discriminate.
Qed.

(** C4 (amended): when the session that a room's host field names
    disconnects, its directory entry names that room (it has not created or
    joined another room since) and other players remain, the
    room's host field becomes the id of the first of the remaining players in
    roster order, which is join order; every entry before that player in the
    old roster belonged to the leaving session.  That
    player's isHost flag is set, the new host is the id of a roster member,
    and the handler announces exactly one newHost, followed by playerLeft. *)
Theorem disconnect_promotes_earliest st s e room :
  players st !! s = Some e → rooms st !! roomCode e = Some room →
  Room.host room = s → without s (Room.players room) ≠ [] →
  ∃ p rest room',
    without s (Room.players room) = p :: rest ∧
    (∃ pre post, Room.players room = pre ++ p :: post ∧
                 Forall (λ q, id q = s) pre ∧ id p ≠ s) ∧
    rooms (disconnect st s).1 !! roomCode e = Some room' ∧
    Room.host room' = id p ∧
    Room.players room' = mkPlayer (id p) (name p) true :: rest ∧
    Room.host room' ∈ id <$> Room.players room' ∧
    msg <$> (disconnect st s).2
      = [NewHost (mkPlayer (id p) (name p) true); PlayerLeft s].
Proof.
  intros He Hroom Hhost Hrem.
  destruct (without s (Room.players room)) as [|p rest] eqn:Hw; [done|].
  exists p, rest, (with_roster room (id p) (promoted p :: rest)).
  rewrite (disconnect_promote _ _ _ _ _ _ He Hroom Hhost Hw). simpl.
  split; [done|]. split; [exact (without_head _ _ _ _ Hw)|].
  split; [apply lookup_insert_eq|].
  repeat split; try done. apply list_elem_of_here.
Qed.

Lemma disconnect_promotes_earliest_witness :
  let st := exec init [OnCreateRoom "a" "Ann" "ABCDEF"; OnJoinRoom "b" "ABCDEF" "Bob";
                       OnJoinRoom "c" "ABCDEF" "Cy"] in
  ∃ p rest room',
    without "a" [mkPlayer "a" "Ann" true; mkPlayer "b" "Bob" false;
                 mkPlayer "c" "Cy" false] = p :: rest ∧
    (∃ pre post, [mkPlayer "a" "Ann" true; mkPlayer "b" "Bob" false;
                  mkPlayer "c" "Cy" false] = pre ++ p :: post ∧
                 Forall (λ q, id q = "a") pre ∧ id p ≠ "a") ∧
    rooms (disconnect st "a").1 !! "ABCDEF" = Some room' ∧
    Room.host room' = id p ∧
    Room.players room' = mkPlayer (id p) (name p) true :: rest ∧
    Room.host room' ∈ id <$> Room.players room' ∧
    msg <$> (disconnect st "a").2
      = [NewHost (mkPlayer (id p) (name p) true); PlayerLeft "a"].
Proof.
  intros st.
  apply (disconnect_promotes_earliest st "a"
           (mkEntry (mkPlayer "a" "Ann" true) "ABCDEF")
           (Room.mk "ABCDEF" "a" [mkPlayer "a" "Ann" true; mkPlayer "b" "Bob" false;
                                  mkPlayer "c" "Cy" false] Waiting [] [])).
  - vm_compute. reflexivity.
  - vm_compute. reflexivity.
  - reflexivity.
  - vm_compute. discriminate.
Defined.

Example disconnect_promotes_earliest_run :
  let st := exec init [OnCreateRoom "a" "Ann" "ABCDEF"; OnJoinRoom "b" "ABCDEF" "Bob";
                       OnJoinRoom "c" "ABCDEF" "Cy"] in
  rooms (disconnect st "a").1 !! "ABCDEF"
    = Some (Room.mk "ABCDEF" "b" [mkPlayer "b" "Bob" true; mkPlayer "c" "Cy" false]
                    Waiting [] []) ∧
  msg <$> (disconnect st "a").2 = [NewHost (mkPlayer "b" "Bob" true); PlayerLeft "a"].
Proof. vm_compute. split; reflexivity. Qed.

(** ** The registry in reachable states *)

Ltac disconnect_cases st s :=
  let e := fresh "e" in
  let He := fresh "He" in
  let room := fresh "room" in
  let Hroom := fresh "Hroom" in
  let Hw := fresh "Hw" in
  let Hhost := fresh "Hhost" in
  destruct (players st !! s) as [e|] eqn:He;
  [ destruct (rooms st !! roomCode e) as [room|] eqn:Hroom;
    [ destruct (without s (Room.players room)) as [|? ?] eqn:Hw;
      [ rewrite (disconnect_last st s e room He Hroom Hw)
      | destruct (decide (Room.host room = s)) as [Hhost|Hhost];
        [ rewrite (disconnect_promote st s e room _ _ He Hroom Hhost Hw)
        | rewrite (disconnect_leave st s e room _ _ He Hroom Hhost Hw) ] ]
    | rewrite (disconnect_roomless st s e He Hroom) ]
  | rewrite (disconnect_unknown st s He) ].

Lemma rooms_wf_insert st k room pl gr tm :
  rooms_wf st → Room.code room = k → Room.players room ≠ [] →
  rooms_wf (mkState (<[k := room]> (rooms st)) pl gr tm).
Proof.
  intros Hwf Hcode Hne c room'. simpl. rewrite lookup_insert.
  case_decide as Hk; [|by apply Hwf].
  intros [= <-]. by subst.
Qed.

Lemma rooms_wf_step st ev : rooms_wf st → rooms_wf (step st ev).1.
Proof.
  intros Hwf. destruct ev as [s n c|s c n|s c|s d now|s d now|s m tme|s|t]; simpl.
  - by apply rooms_wf_insert.
  - unfold joinRoom. destruct (rooms st !! c) as [room|] eqn:Hroom; [|done].
    case_bool_decide; [done|]. simpl. apply rooms_wf_insert; [done| |].
    + simpl. by apply (Hwf c room).
    + simpl. by destruct (Room.players room).
  - unfold startGame. destruct (rooms st !! c) as [room|] eqn:Hroom; [|done].
    repeat case_bool_decide; try done. simpl.
    apply rooms_wf_insert; [done|simpl..]; by apply (Hwf c room).
  - unfold submitDrawing. destruct (players st !! s) as [e|]; [|done].
    destruct (rooms st !! roomCode e) as [room|] eqn:Hroom; [|done]. simpl.
    apply rooms_wf_insert; [done|simpl..]; by apply (Hwf (roomCode e) room).
  - unfold submitSlogan. destruct (players st !! s) as [e|]; [|done].
    destruct (rooms st !! roomCode e) as [room|] eqn:Hroom; [|done]. simpl.
    apply rooms_wf_insert; [done|simpl..]; by apply (Hwf (roomCode e) room).
  - unfold chatMessage. by destruct (players st !! s).
  - disconnect_cases st s; simpl; try done.
    + intros c room'. simpl. destruct (Hwf _ _ Hroom) as [-> _].
      rewrite delete_insert_eq. intros Hc.
      apply lookup_delete_Some in Hc as [_ Hc]. by apply Hwf.
    + apply rooms_wf_insert; [done|simpl|done]. by apply (Hwf (roomCode e) room).
    + apply rooms_wf_insert; [done|simpl|done]. by apply (Hwf (roomCode e) room).
  - unfold tick. destruct (timers st !! t) as [tm|]; [|done].
    destruct (armed tm); [|done]. by case_bool_decide.
Qed.

Lemma rooms_wf_init : rooms_wf init.
Proof. intros c room. simpl. by rewrite lookup_empty. Qed.

Lemma rooms_wf_exec evs : ∀ st, rooms_wf st → rooms_wf (exec st evs).
Proof.
  induction evs as [|ev evs IH]; intros st Hwf; [done|].
  rewrite exec_cons. by apply IH, rooms_wf_step.
Qed.

Lemma step_keeps_absent st ev c :
  rooms st !! c = None → ¬ creates c ev → rooms (step st ev).1 !! c = None.
Proof.
  intros Hc Hev.
  destruct ev as [s n c'|s c' n|s c'|s d now|s d now|s m tme|s|t]; simpl in *.
  - by rewrite lookup_insert_ne.
  - unfold joinRoom. destruct (rooms st !! c') as [room|] eqn:Hroom; [|done].
    case_bool_decide; [done|]. simpl.
    rewrite lookup_insert_ne; [done|congruence].
  - unfold startGame. destruct (rooms st !! c') as [room|] eqn:Hroom; [|done].
    repeat case_bool_decide; try done. simpl.
    rewrite lookup_insert_ne; [done|congruence].
  - unfold submitDrawing. destruct (players st !! s) as [e|]; [|done].
    destruct (rooms st !! roomCode e) as [room|] eqn:Hroom; [|done]. simpl.
    rewrite lookup_insert_ne; [done|congruence].
  - unfold submitSlogan. destruct (players st !! s) as [e|]; [|done].
    destruct (rooms st !! roomCode e) as [room|] eqn:Hroom; [|done]. simpl.
    rewrite lookup_insert_ne; [done|congruence].
  - unfold chatMessage. by destruct (players st !! s).
  - disconnect_cases st s; simpl; try done.
    + apply lookup_delete_None. right. rewrite lookup_insert_ne; [done|congruence].
    + rewrite lookup_insert_ne; [done|congruence].
    + rewrite lookup_insert_ne; [done|congruence].
  - unfold tick. destruct (timers st !! t) as [tm|]; [|done].
    destruct (armed tm); [|done]. by case_bool_decide.
Qed.

Lemma exec_keeps_absent c evs : ∀ st,
  rooms st !! c = None → Forall (λ ev, ¬ creates c ev) evs →
  rooms (exec st evs) !! c = None.
Proof.
  induction evs as [|ev evs IH]; intros st Hc Hevs; [done|].
  rewrite exec_cons. inversion Hevs; subst.
  by apply IH; [apply step_keeps_absent|].
Qed.

(** C7, as stated, fails: a creates a room, creates a second room and
    disconnects.  a was the only player of the first room, but the handler
    removes a only from the second room, which its directory entry names;
    the first room stays in the registry with a in its roster, and a
    joinRoom with its code succeeds. *)
Lemma room_of_departed_session_stays :
  let st := exec init [OnCreateRoom "a" "Ann" "ABCDEF"; OnCreateRoom "a" "Ann" "GHIJKL"] in
  rooms st !! "ABCDEF"
    = Some (Room.mk "ABCDEF" "a" [mkPlayer "a" "Ann" true] Waiting [] []) ∧
  rooms (disconnect st "a").1 !! "ABCDEF"
    = Some (Room.mk "ABCDEF" "a" [mkPlayer "a" "Ann" true] Waiting [] []) ∧
  msg <$> (joinRoom (disconnect st "a").1 "b" "ABCDEF" "Bob").2
    = [RoomJoined "ABCDEF" [mkPlayer "a" "Ann" true; mkPlayer "b" "Bob" false] "b";
       PlayerJoined (mkPlayer "b" "Bob" false)] ∧
  ¬ spec_last_player_removes_room.
Proof.
  intros st.
  assert (Hroom : rooms st !! "ABCDEF"
    = Some (Room.mk "ABCDEF" "a" [mkPlayer "a" "Ann" true] Waiting [] []))
    by (vm_compute; reflexivity).
  assert (Hafter : rooms (disconnect st "a").1 !! "ABCDEF"
    = Some (Room.mk "ABCDEF" "a" [mkPlayer "a" "Ann" true] Waiting [] []))
    by (vm_compute; reflexivity).
  split; [exact Hroom|]. split; [exact Hafter|]. split; [vm_compute; reflexivity|].
  intros Hspec.
  specialize (Hspec [OnCreateRoom "a" "Ann" "ABCDEF"; OnCreateRoom "a" "Ann" "GHIJKL"]
                    "a" "ABCDEF" _ Hroom).
  fold st in Hspec. rewrite Hafter in Hspec.
  discriminate Hspec. vm_compute. reflexivity.
Qed.

(** C7 (amended): in every state the server can reach, no room of the
    registry has an empty roster; and when a session whose directory entry
    names a room disconnects and that room's roster held no other session,
    the room is removed from the registry, so that a joinRoom with its code,
    then or at any later time before createRoom draws that code again, is
    answered with the "room not found" error and changes nothing. *)
Theorem last_player_removes_room evs :
  let st := exec init evs in
  (∀ c room, rooms st !! c = Some room → Room.players room ≠ []) ∧
  (∀ s e room,
     players st !! s = Some e → rooms st !! roomCode e = Some room →
     without s (Room.players room) = [] →
     let st' := (disconnect st s).1 in
     rooms st' !! roomCode e = None ∧
     ∀ later s' n, Forall (λ ev, ¬ creates (roomCode e) ev) later →
       joinRoom (exec st' later) s' (roomCode e) n
         = (exec st' later, [socket_emit s' (Error room_not_found)])).
Proof.
  intros st. pose proof (rooms_wf_exec evs init rooms_wf_init) as Hwf.
  fold st in Hwf. split; [intros c room Hc; by apply (Hwf c room)|].
  intros s e room He Hroom Hw st'.
  assert (Hgone : rooms st' !! roomCode e = None).
  { unfold st'. rewrite (disconnect_last st s e room He Hroom Hw). simpl.
    destruct (Hwf _ _ Hroom) as [-> _]. apply lookup_delete_eq. }
  split; [done|]. intros later s' n Hlater.
  apply joinRoom_unknown. by apply exec_keeps_absent.
Qed.

Lemma last_player_removes_room_witness :
  let st := exec init [OnCreateRoom "a" "Ann" "ABCDEF"; OnJoinRoom "b" "ABCDEF" "Bob";
                       OnDisconnect "a"] in
  rooms (disconnect st "b").1 !! "ABCDEF" = None ∧
  joinRoom (exec (disconnect st "b").1 [OnCreateRoom "c" "Cy" "GHIJKL"]) "d" "ABCDEF" "Di"
    = (exec (disconnect st "b").1 [OnCreateRoom "c" "Cy" "GHIJKL"],
       [socket_emit "d" (Error room_not_found)]).
Proof.
  intros st.
  destruct (proj2 (last_player_removes_room
                     [OnCreateRoom "a" "Ann" "ABCDEF"; OnJoinRoom "b" "ABCDEF" "Bob";
                      OnDisconnect "a"])
              "b" (mkEntry (mkPlayer "b" "Bob" false) "ABCDEF")
              (Room.mk "ABCDEF" "b" [mkPlayer "b" "Bob" true] Waiting [] []))
    as [Hgone Hjoin]; [vm_compute; reflexivity..|].
  split; [exact Hgone|].
  apply (Hjoin [OnCreateRoom "c" "Cy" "GHIJKL"] "d" "Di").
  repeat constructor. simpl. discriminate.
Defined.

(** ** The directory, the broadcast groups and the rosters *)

Lemma members_join st s c c' pl rm tm :
  members (mkState rm pl (socket_join s c (groups st)) tm) c'
    = if decide (c = c') then {[ s ]} ∪ members st c else members st c'.
Proof.
  unfold members, socket_join. simpl. rewrite lookup_insert.
  case_decide; by subst.
Qed.

Lemma members_leave st s c pl rm tm :
  members (mkState rm pl (leave_all s (groups st)) tm) c = members st c ∖ {[ s ]}.
Proof.
  unfold members, leave_all. simpl. rewrite lookup_fmap.
  destruct (groups st !! c); simpl; [done|].
  apply set_eq. intros x. rewrite elem_of_difference, elem_of_empty. tauto.
Qed.

(** Rewriting a room without touching its roster keeps the state consistent. *)
Lemma consistent_update st k room room' tm :
  rooms st !! k = Some room → Room.players room' = Room.players room →
  consistent st →
  consistent (mkState (<[k := room']> (rooms st)) (players st) (groups st) tm).
Proof.
  intros Hk Hps [Hdir Hgrp]. split; simpl.
  - intros s e He. destruct (Hdir s e He) as (Hid & room0 & p & Hroom0 & Hp & Hm).
    split; [done|]. rewrite lookup_insert. case_decide as Hc.
    + exists room', p. rewrite Hps. split; [done|]. split; [|done].
      rewrite <- Hc in Hroom0. congruence.
    + by exists room0, p.
  - intros c s Hs. destruct (Hgrp c s Hs) as (room0 & Hroom0 & Hin).
    rewrite lookup_insert. case_decide as Hc.
    + exists room'. rewrite Hps. split; [done|]. rewrite <- Hc in Hroom0. congruence.
    + by exists room0.
Qed.

Lemma consistent_timers st tm :
  consistent st → consistent (mkState (rooms st) (players st) (groups st) tm).
Proof. intros [Hdir Hgrp]. by split. Qed.

Lemma consistent_createRoom st s n c :
  rooms st !! c = None → consistent st → consistent (createRoom st s n c).1.
Proof.
  intros Hfresh [Hdir Hgrp]. split; simpl.
  - intros s' e. rewrite lookup_insert. case_decide as Hs.
    + intros [= <-]. simpl. split; [done|].
      eexists _, (mkPlayer s n true). rewrite lookup_insert_eq.
      split; [done|]. split; [apply list_elem_of_here|]. by subst.
    + intros He. destruct (Hdir s' e He) as (Hid & room0 & p & Hroom0 & Hp & Hm).
      split; [done|]. exists room0, p. rewrite lookup_insert_ne; [done|congruence].
  - intros c' s'. rewrite members_join. case_decide as Hc.
    + subst c'. rewrite lookup_insert_eq. intros Hs'.
      apply elem_of_union in Hs' as [Hs'|Hs'].
      * apply elem_of_singleton in Hs' as ->. eexists. split; [done|].
        simpl. apply list_elem_of_here.
      * destruct (Hgrp c s' Hs') as (room0 & Hroom0 & _). congruence.
    + intros Hs'. rewrite lookup_insert_ne by done. by apply Hgrp.
Qed.

Lemma consistent_joinRoom st s c n :
  consistent st → consistent (joinRoom st s c n).1.
Proof.
  intros Hcons. unfold joinRoom.
  destruct (rooms st !! c) as [room|] eqn:Hroom; [|done].
  case_bool_decide; [done|]. destruct Hcons as [Hdir Hgrp]. split; simpl.
  - intros s' e. rewrite lookup_insert. case_decide as Hs.
    + intros [= <-]. simpl. split; [done|].
      eexists _, (mkPlayer s n false). rewrite lookup_insert_eq.
      split; [done|]. split; [|by subst].
      simpl. apply elem_of_app. right. apply list_elem_of_here.
    + intros He. destruct (Hdir s' e He) as (Hid & room0 & p & Hroom0 & Hp & Hm).
      split; [done|]. rewrite lookup_insert. case_decide as Hc.
      * eexists _, p. split; [done|]. split; [|done]. simpl.
        apply elem_of_app. left. rewrite <- Hc in Hroom0. congruence.
      * by exists room0, p.
  - intros c' s'. rewrite members_join. rewrite lookup_insert.
    case_decide as Hc.
    + subst c'. intros Hs'. eexists. split; [done|]. simpl.
      rewrite fmap_app. apply elem_of_app.
      apply elem_of_union in Hs' as [Hs'|Hs'].
      * apply elem_of_singleton in Hs' as ->. right. simpl. apply list_elem_of_here.
      * left. destruct (Hgrp c s' Hs') as (room0 & Hroom0 & Hin). congruence.
    + by apply Hgrp.
Qed.

Lemma consistent_removed st s rooms' tm :
  consistent st →
  (∀ c room p0, rooms st !! c = Some room → p0 ∈ Room.players room → id p0 ≠ s →
     ∃ room1 p1, rooms' !! c = Some room1 ∧ p1 ∈ Room.players room1 ∧ survives p0 p1) →
  consistent (mkState rooms' (delete s (players st)) (leave_all s (groups st)) tm).
Proof.
  intros [Hdir Hgrp] Hsurv. split.
  - intros s' e He. simpl in He. apply lookup_delete_Some in He as [Hne He].
    destruct (Hdir s' e He) as (Hid & room0 & p0 & Hroom0 & Hp0 & Hi & Hn & Hh).
    split; [done|].
    destruct (Hsurv _ _ p0 Hroom0 Hp0) as (room1 & p1 & Hroom1 & Hp1 & Hi1 & Hn1 & Hh1);
      [congruence|].
    exists room1, p1. simpl. split; [done|]. split; [done|].
    repeat split; [congruence|congruence|auto].
  - intros c s'. rewrite members_leave. intros Hs'.
    apply elem_of_difference in Hs' as [Hs' Hne].
    rewrite elem_of_singleton in Hne.
    destruct (Hgrp c s' Hs') as (room0 & Hroom0 & Hin).
    apply list_elem_of_fmap in Hin as (p0 & -> & Hp0).
    destruct (Hsurv _ _ p0 Hroom0 Hp0 Hne) as (room1 & p1 & Hroom1 & Hp1 & Hi1 & _).
    exists room1. simpl. split; [done|]. rewrite <- Hi1.
    by apply list_elem_of_fmap_2.
Qed.

Lemma survives_refl p : survives p p.
Proof. by repeat split. Qed.

Lemma survives_promoted p : survives p (promoted p).
Proof. by repeat split. Qed.

Lemma consistent_disconnect st s :
  rooms_wf st → consistent st → consistent (disconnect st s).1.
Proof.
  intros Hwf Hcons. disconnect_cases st s; simpl.
  - (* the last player of the room *)
    apply consistent_removed; [done|]. intros c room0 p0 Hroom0 Hp0 Hne.
    destruct (Hwf _ _ Hroom) as [Hcode _]. rewrite Hcode, delete_insert_eq.
    destruct (decide (c = roomCode e)) as [->|Hc].
    + assert (room0 = room) as -> by congruence.
      assert (p0 ∈ without s (Room.players room)) as Hin
        by (by apply list_elem_of_filter).
      rewrite Hw in Hin. by apply elem_of_nil in Hin.
    + exists room0, p0. rewrite lookup_delete_ne by done.
      split; [done|]. split; [done|apply survives_refl].
  - (* the host leaves, others remain *)
    apply consistent_removed; [done|]. intros c room0 p0 Hroom0 Hp0 Hne.
    rewrite lookup_insert. case_decide as Hc.
    + subst c. assert (room0 = room) as -> by congruence.
      assert (p0 ∈ without s (Room.players room)) as Hin
        by (by apply list_elem_of_filter).
      rewrite Hw in Hin. apply elem_of_cons in Hin as [->|Hin].
      * eexists _, (promoted p). split; [done|].
        split; [apply list_elem_of_here|apply survives_promoted].
      * eexists _, p0. split; [done|].
        split; [simpl; by apply list_elem_of_further|apply survives_refl].
    + exists room0, p0. split; [done|]. split; [done|apply survives_refl].
  - (* another player leaves *)
    apply consistent_removed; [done|]. intros c room0 p0 Hroom0 Hp0 Hne.
    rewrite lookup_insert. case_decide as Hc.
    + subst c. assert (room0 = room) as -> by congruence.
      assert (p0 ∈ without s (Room.players room)) as Hin
        by (by apply list_elem_of_filter).
      rewrite Hw in Hin. eexists _, p0. split; [done|].
      split; [done|apply survives_refl].
    + exists room0, p0. split; [done|]. split; [done|apply survives_refl].
  - apply consistent_removed; [done|]. intros c room0 p0 Hroom0 Hp0 Hne.
    exists room0, p0. split; [done|]. split; [done|apply survives_refl].
  - rewrite <- (delete_id (players st) s) at 1 by done.
    apply consistent_removed; [done|]. intros c room0 p0 Hroom0 Hp0 Hne.
    exists room0, p0. split; [done|]. split; [done|apply survives_refl].
Qed.

Lemma consistent_step st ev :
  rooms_wf st → consistent st → fresh_code st ev → consistent (step st ev).1.
Proof.
  intros Hwf Hcons Hfresh.
  destruct ev as [s n c|s c n|s c|s d now|s d now|s m tme|s|t]; simpl in *.
  - by apply consistent_createRoom.
  - by apply consistent_joinRoom.
  - unfold startGame. destruct (rooms st !! c) as [room|] eqn:Hroom; [|done].
    repeat case_bool_decide; try done. simpl.
    by apply (consistent_update st c room).
  - unfold submitDrawing. destruct (players st !! s) as [e|]; [|done].
    destruct (rooms st !! roomCode e) as [room|] eqn:Hroom; [|done]. simpl.
    by apply (consistent_update st (roomCode e) room).
  - unfold submitSlogan. destruct (players st !! s) as [e|]; [|done].
    destruct (rooms st !! roomCode e) as [room|] eqn:Hroom; [|done]. simpl.
    by apply (consistent_update st (roomCode e) room).
  - unfold chatMessage. by destruct (players st !! s).
  - by apply consistent_disconnect.
  - unfold tick. destruct (timers st !! t) as [tm|]; [|done].
    destruct (armed tm); [|done].
    case_bool_decide; simpl; by apply consistent_timers.
Qed.

Lemma consistent_init : consistent init.
Proof.
  split.
  - intros s e. simpl. by rewrite lookup_empty.
  - intros c s. unfold members. simpl. rewrite lookup_empty. simpl.
    by rewrite elem_of_empty.
Qed.

Lemma consistent_exec evs : ∀ st,
  rooms_wf st → consistent st → fresh_codes st evs → consistent (exec st evs).
Proof.
  induction evs as [|ev evs IH]; intros st Hwf Hcons Hfresh; [done|].
  destruct Hfresh as [Hev Hrest]. rewrite exec_cons.
  apply IH; [by apply rooms_wf_step|by apply consistent_step|done].
Qed.

(** ** The directory against the rosters *)

(** C2, as stated, fails.  h creates a room, b and g join it, g creates a room
    of its own and disconnects, then h disconnects.  g's entry is still in the
    first room's roster (nothing takes a session out of a room when it enters
    another one) although the directory no longer knows g, and b has been
    promoted in the roster while its directory entry still says
    [isHost = false]. *)
Lemma directory_disagrees :
  let st := exec init [OnCreateRoom "h" "Hal" "ABCDEF"; OnJoinRoom "b" "ABCDEF" "Bob";
                       OnJoinRoom "g" "ABCDEF" "Gil"; OnCreateRoom "g" "Gil" "GHIJKL";
                       OnDisconnect "g"; OnDisconnect "h"] in
  rooms st !! "ABCDEF"
    = Some (Room.mk "ABCDEF" "b" [mkPlayer "b" "Bob" true; mkPlayer "g" "Gil" false]
                    Waiting [] []) ∧
  players st !! "b" = Some (mkEntry (mkPlayer "b" "Bob" false) "ABCDEF") ∧
  players st !! "g" = None ∧
  ¬ spec_same_presence st ∧ ¬ spec_same_isHost st ∧ ¬ spec_directory_agrees.
Proof.
  intros st.
  assert (Hroom : rooms st !! "ABCDEF"
    = Some (Room.mk "ABCDEF" "b" [mkPlayer "b" "Bob" true; mkPlayer "g" "Gil" false]
                    Waiting [] [])) by (vm_compute; reflexivity).
  assert (Hb : players st !! "b" = Some (mkEntry (mkPlayer "b" "Bob" false) "ABCDEF"))
    by (vm_compute; reflexivity).
  assert (Hg : players st !! "g" = None) by (vm_compute; reflexivity).
  assert (Hpres : ¬ spec_same_presence st).
  { intros Hspec. destruct (proj2 (Hspec "g" "ABCDEF")) as (e & He & _).
    - eexists _, (mkPlayer "g" "Gil" false). split; [exact Hroom|].
      split; [|done]. simpl. apply list_elem_of_further, list_elem_of_here.
    - congruence. }
  assert (Hhost : ¬ spec_same_isHost st).
  { intros Hspec.
    specialize (Hspec "b" _ _ (mkPlayer "b" "Bob" true) Hb Hroom).
    simpl in Hspec. discriminate Hspec; [apply list_elem_of_here|done]. }
  repeat split; try done.
  intros Hspec. by destruct (Hspec
    [OnCreateRoom "h" "Hal" "ABCDEF"; OnJoinRoom "b" "ABCDEF" "Bob";
     OnJoinRoom "g" "ABCDEF" "Gil"; OnCreateRoom "g" "Gil" "GHIJKL";
     OnDisconnect "g"; OnDisconnect "h"]).
Qed.

(** Without the premise on the generated codes the directory can also name a
    room that does not hold the session: a second createRoom that draws the
    code of a live room replaces that room. *)
Example collision_replaces_room :
  let st := exec init [OnCreateRoom "a" "Ann" "ABCDEF"; OnCreateRoom "b" "Bob" "ABCDEF"] in
  players st !! "a" = Some (mkEntry (mkPlayer "a" "Ann" true) "ABCDEF") ∧
  rooms st !! "ABCDEF"
    = Some (Room.mk "ABCDEF" "b" [mkPlayer "b" "Bob" true] Waiting [] []).
Proof. vm_compute. split; reflexivity. Qed.

(** C2 (amended): in every state reached by createRoom, joinRoom, startGame,
    submissions, chat, timer callbacks and disconnects in which createRoom
    never drew the code of a live room, every directory entry is stored under
    its own session id and names a room of the registry whose roster holds a
    player with that id and the same name; if the directory entry says
    [isHost = true], so does that roster entry. *)
Theorem directory_entry_in_roster evs s e :
  fresh_codes init evs → players (exec init evs) !! s = Some e →
  id (player e) = s ∧
  ∃ room p, rooms (exec init evs) !! roomCode e = Some room ∧
            p ∈ Room.players room ∧
            id p = s ∧ name p = name (player e) ∧
            (isHost (player e) = true → isHost p = true).
Proof.
  intros Hfresh He.
  pose proof (consistent_exec evs init rooms_wf_init consistent_init Hfresh) as [Hdir _].
  exact (Hdir s e He).
Qed.

Lemma directory_entry_in_roster_witness :
  let evs := [OnCreateRoom "a" "Ann" "ABCDEF"; OnJoinRoom "b" "ABCDEF" "Bob";
              OnDisconnect "a"] in
  ∃ room p, rooms (exec init evs) !! "ABCDEF" = Some room ∧
            p ∈ Room.players room ∧
            id p = "b" ∧ name p = "Bob" ∧ (false = true → isHost p = true).
Proof.
  intros evs.
  apply (directory_entry_in_roster evs "b" (mkEntry (mkPlayer "b" "Bob" false) "ABCDEF")).
  - vm_compute. repeat split.
  - vm_compute. reflexivity.
Defined.

(** ** Timers of destroyed rooms *)

(** C8, as stated, fails: a creates a room, b joins, a starts the game and
    both disconnect before the first second has passed.  The room is gone,
    the interval is still armed, and its next callback emits countdownUpdate
    for the code of the destroyed room. *)
Lemma timer_outlives_room :
  let st := exec init [OnCreateRoom "a" "Ann" "ABCDEF"; OnJoinRoom "b" "ABCDEF" "Bob";
                       OnStartGame "a" "ABCDEF"; OnDisconnect "a"; OnDisconnect "b"] in
  rooms st !! "ABCDEF" = None ∧
  timers st !! 0%nat = Some (mkTimer "ABCDEF" 3 true) ∧
  (tick st 0).2 = [mkEmission (ToRoom "ABCDEF") ∅ (CountdownUpdate 2)] ∧
  ¬ spec_silent_after_destruction.
Proof.
  intros st.
  assert (Hroom : rooms st !! "ABCDEF" = None) by (vm_compute; reflexivity).
  assert (Ht : timers st !! 0%nat = Some (mkTimer "ABCDEF" 3 true))
    by (vm_compute; reflexivity).
  assert (Hout : (tick st 0).2 = [mkEmission (ToRoom "ABCDEF") ∅ (CountdownUpdate 2)])
    by (vm_compute; reflexivity).
  repeat split; try done.
  intros Hspec.
  specialize (Hspec [OnCreateRoom "a" "Ann" "ABCDEF"; OnJoinRoom "b" "ABCDEF" "Bob";
                     OnStartGame "a" "ABCDEF"; OnDisconnect "a"; OnDisconnect "b"]
                    0%nat _ Ht Hroom).
  fold st in Hspec. rewrite Hout in Hspec. discriminate.
Qed.

(** C8 (amended): a disconnect, also the one that destroys a room, leaves
    every timer as it is, so a countdown that is pending keeps running.  As
    long as createRoom never drew the code of a live room, a callback that
    runs while its room's code is absent from the registry leaves registry and
    directory unchanged, still emits its countdownUpdate when the interval is
    armed, and everything it emits is addressed to that code and reaches no
    session. *)
Theorem tick_of_destroyed_room evs t tm :
  fresh_codes init evs →
  timers (exec init evs) !! t = Some tm →
  rooms (exec init evs) !! timerRoom tm = None →
  (∀ s, timers (disconnect (exec init evs) s).1 = timers (exec init evs)) ∧
  rooms (tick (exec init evs) t).1 = rooms (exec init evs) ∧
  players (tick (exec init evs) t).1 = players (exec init evs) ∧
  (armed tm = true →
   ∃ rest, msg <$> (tick (exec init evs) t).2
             = CountdownUpdate (countdown tm - 1) :: rest) ∧
  Forall (λ e, target e = ToRoom (timerRoom tm) ∧ recipients e = ∅)
         (tick (exec init evs) t).2.
Proof.
  intros Hfresh Ht Hroom.
  pose proof (consistent_exec evs init rooms_wf_init consistent_init Hfresh) as [_ Hgrp].
  set (st := exec init evs) in *.
  assert (Hnone : members st (timerRoom tm) = ∅).
  { apply set_eq. intros s. rewrite elem_of_empty. split; [|done].
    intros Hs. destruct (Hgrp _ _ Hs) as (room & Hsome & _). congruence. }
  split.
  { intros s. by disconnect_cases st s. }
  unfold tick. rewrite Ht. destruct (armed tm); [|by repeat split].
  unfold io_to_emit. rewrite Hnone.
  case_bool_decide; simpl; repeat split; eauto; by repeat constructor.
Qed.

Lemma tick_of_destroyed_room_witness :
  let st := exec init [OnCreateRoom "a" "Ann" "ABCDEF"; OnJoinRoom "b" "ABCDEF" "Bob";
                       OnStartGame "a" "ABCDEF"; OnDisconnect "a"; OnDisconnect "b"] in
  Forall (λ e, target e = ToRoom "ABCDEF" ∧ recipients e = ∅) (tick st 0).2.
Proof.
  intros st.
  apply (tick_of_destroyed_room
           [OnCreateRoom "a" "Ann" "ABCDEF"; OnJoinRoom "b" "ABCDEF" "Bob";
            OnStartGame "a" "ABCDEF"; OnDisconnect "a"; OnDisconnect "b"]
           0%nat (mkTimer "ABCDEF" 3 true)).
  - vm_compute. repeat split.
  - vm_compute. reflexivity.
  - vm_compute. reflexivity.
Defined.

(** The premise that the code is absent matters: once createRoom draws the
    code of the destroyed room again, the old countdown reaches the new
    room's sessions. *)
Example stale_timer_reaches_new_room :
  let st := exec init [OnCreateRoom "a" "Ann" "ABCDEF"; OnJoinRoom "b" "ABCDEF" "Bob";
                       OnStartGame "a" "ABCDEF"; OnDisconnect "a"; OnDisconnect "b";
                       OnCreateRoom "c" "Cy" "ABCDEF"] in
  (tick st 0).2 = [mkEmission (ToRoom "ABCDEF") {[ "c" ]} (CountdownUpdate 2)].
Proof. vm_compute. reflexivity. Qed.

(** * Further properties of the handlers *)

(** ** generateRoomCode *)

Lemma char_at_letter i :
  (i < 26)%nat → char_at i = [Ascii.ascii_of_nat (65 + i)].
Proof.
  intros Hi. do 26 (destruct i as [|i]; [reflexivity|]). lia.
Qed.

Lemma generateRoomCode_letters rnd :
  (∀ i, (i < 6)%nat → (rnd i < 26)%nat) →
  String.list_ascii_of_string (generateRoomCode rnd)
    = (λ i, Ascii.ascii_of_nat (65 + rnd i)) <$> seq 0 6.
Proof.
  intros Hrnd. unfold generateRoomCode.
  rewrite String.list_ascii_of_string_of_list_ascii. simpl.
  rewrite !char_at_letter by (apply Hrnd; lia). reflexivity.
Qed.

(** X1: when every draw is an index into the alphabet (below 26),
    generateRoomCode returns a string of exactly six characters, each a
    capital letter A-Z, and two runs return the same code only if all six
    draws agree. *)
Theorem generateRoomCode_six_capitals rnd :
  (∀ i, (i < 6)%nat → (rnd i < 26)%nat) →
  String.length (generateRoomCode rnd) = 6%nat ∧
  Forall (λ a, (65 ≤ Ascii.nat_of_ascii a ≤ 90)%nat)
         (String.list_ascii_of_string (generateRoomCode rnd)) ∧
  (∀ rnd', (∀ i, (i < 6)%nat → (rnd' i < 26)%nat) →
     generateRoomCode rnd' = generateRoomCode rnd →
     ∀ i, (i < 6)%nat → rnd' i = rnd i).
Proof.
  intros Hrnd. pose proof (generateRoomCode_letters rnd Hrnd) as Hcode.
  split; [|split].
  - rewrite <- (String.string_of_list_ascii_of_string (generateRoomCode rnd)), Hcode.
    reflexivity.
  - rewrite Hcode. apply Forall_fmap, Forall_forall. intros i Hi.
    apply elem_of_seq in Hi. simpl.
    rewrite Ascii.nat_ascii_embedding by (specialize (Hrnd i); lia).
    specialize (Hrnd i). lia.
  - intros rnd' Hrnd' Heq i Hi.
    pose proof (generateRoomCode_letters rnd' Hrnd') as Hcode'.
    rewrite Heq, Hcode in Hcode'.
    assert (Hi' : seq 0 6 !! i = Some i) by (apply lookup_seq; lia).
    apply (f_equal (λ l, l !! i)) in Hcode'.
    rewrite !list_lookup_fmap, Hi' in Hcode'. simpl in Hcode'.
    injection Hcode' as Hascii.
    apply (f_equal Ascii.nat_of_ascii) in Hascii.
    rewrite !Ascii.nat_ascii_embedding in Hascii
      by (specialize (Hrnd i); specialize (Hrnd' i); lia).
    lia.
Qed.

Lemma generateRoomCode_six_capitals_witness :
  generateRoomCode (λ i, (3 * i + 7) `mod` 26)%nat = "HKNQTW" ∧
  String.length (generateRoomCode (λ i, (3 * i + 7) `mod` 26)%nat) = 6%nat.
Proof.
  split; [reflexivity|].
  apply (generateRoomCode_six_capitals (λ i, (3 * i + 7) `mod` 26)%nat).
  intros i Hi. apply Nat.mod_upper_bound. lia.
Defined.

(** ** The registry invariant *)

Lemma registry_ok_insert st k room pl gr tm :
  registry_ok st → room_ok k room →
  registry_ok (mkState (<[k := room]> (rooms st)) pl gr tm).
Proof.
  intros Hok Hroom c room'. simpl. rewrite lookup_insert.
  case_decide as Hk; [|by apply Hok]. intros [= <-]. by subst.
Qed.

(** A room whose roster, host and code are those of an admissible room. *)
Lemma room_ok_same c room room' :
  room_ok c room → Room.code room' = Room.code room →
  Room.host room' = Room.host room → Room.players room' = Room.players room →
  room_ok c room'.
Proof. unfold room_ok. intros H -> -> ->. exact H. Qed.

Lemma without_elem s ps p : p ∈ without s ps ↔ id p ≠ s ∧ p ∈ ps.
Proof. unfold without. by rewrite list_elem_of_filter. Qed.

Lemma room_ok_promote c room s p rest :
  room_ok c room → Room.host room = s → without s (Room.players room) = p :: rest →
  room_ok c (with_roster room (id p) (promoted p :: rest)).
Proof.
  intros (Hcode & Hlen & _ & Hflag) Hhost Hw.
  pose proof (length_filter (λ q, id q ≠ s) (Room.players room)) as Hle.
  fold (without s (Room.players room)) in Hle. rewrite Hw in Hle. simpl in Hle.
  split; [done|]. split; [simpl; lia|]. split; simpl.
  - exists (promoted p). split; [apply list_elem_of_here|done].
  - intros q Hq Hq'. apply elem_of_cons in Hq as [->|Hq]; [done|].
    assert (q ∈ without s (Room.players room)) as Hin
      by (rewrite Hw; by apply list_elem_of_further).
    apply without_elem in Hin as [Hne Hin].
    specialize (Hflag q Hin Hq'). congruence.
Qed.

Lemma room_ok_leave c room s p rest :
  room_ok c room → Room.host room ≠ s → without s (Room.players room) = p :: rest →
  room_ok c (with_roster room (Room.host room) (p :: rest)).
Proof.
  intros (Hcode & Hlen & (h & Hh & Hid & Hflagged) & Hflag) Hhost Hw.
  pose proof (length_filter (λ q, id q ≠ s) (Room.players room)) as Hle.
  fold (without s (Room.players room)) in Hle. rewrite Hw in Hle. simpl in Hle.
  split; [done|]. split; [simpl; lia|]. split; simpl; rewrite <- Hw.
  - exists h. split; [|done]. apply without_elem. split; [congruence|done].
  - intros q Hq. apply without_elem in Hq as [_ Hq]. by apply Hflag.
Qed.

Lemma registry_ok_step st ev : registry_ok st → registry_ok (step st ev).1.
Proof.
  intros Hok. destruct ev as [s n c|s c n|s c|s d now|s d now|s m tme|s|t]; simpl.
  - apply registry_ok_insert; [done|]. split; [done|]. split; [simpl; lia|].
    split; simpl.
    + eexists. split; [apply list_elem_of_here|done].
    + intros p Hp _. by apply list_elem_of_singleton in Hp as ->.
  - unfold joinRoom. destruct (rooms st !! c) as [room|] eqn:Hroom; [|done].
    case_bool_decide as Hfull; [done|]. simpl.
    destruct (Hok c room Hroom) as (Hcode & Hlen & (h & Hh & Hid & Hflagged) & Hflag).
    apply registry_ok_insert; [done|]. split; [done|]. split; simpl.
    { rewrite length_app. simpl. lia. }
    split.
    + exists h. split; [|done]. apply elem_of_app. by left.
    + intros p Hp Hp'. apply elem_of_app in Hp as [Hp|Hp]; [by apply Hflag|].
      apply list_elem_of_singleton in Hp as ->. done.
  - unfold startGame. destruct (rooms st !! c) as [room|] eqn:Hroom; [|done].
    repeat case_bool_decide; try done. simpl.
    apply registry_ok_insert; [done|]. by apply (room_ok_same c room); [apply Hok|..].
  - unfold submitDrawing. destruct (players st !! s) as [e|]; [|done].
    destruct (rooms st !! roomCode e) as [room|] eqn:Hroom; [|done]. simpl.
    apply registry_ok_insert; [done|]. by apply (room_ok_same _ room); [apply Hok|..].
  - unfold submitSlogan. destruct (players st !! s) as [e|]; [|done].
    destruct (rooms st !! roomCode e) as [room|] eqn:Hroom; [|done]. simpl.
    apply registry_ok_insert; [done|]. by apply (room_ok_same _ room); [apply Hok|..].
  - unfold chatMessage. by destruct (players st !! s).
  - disconnect_cases st s; simpl; try done.
    + intros c room'. simpl. destruct (Hok _ _ Hroom) as [-> _].
      rewrite delete_insert_eq. intros Hc.
      apply lookup_delete_Some in Hc as [_ Hc]. by apply Hok.
    + apply registry_ok_insert; [done|]. apply (room_ok_promote _ _ s); [|done..].
      by apply Hok.
    + apply registry_ok_insert; [done|]. apply (room_ok_leave _ _ s); [|done..].
      by apply Hok.
  - unfold tick. destruct (timers st !! t) as [tm|]; [|done].
    destruct (armed tm); [|done]. by case_bool_decide.
Qed.

Lemma registry_ok_exec evs : ∀ st, registry_ok st → registry_ok (exec st evs).
Proof.
  induction evs as [|ev evs IH]; intros st Hok; [done|].
  rewrite exec_cons. by apply IH, registry_ok_step.
Qed.

Lemma registry_ok_init : registry_ok init.
Proof. intros c room. simpl. by rewrite lookup_empty. Qed.

(** X2: in every state the server can reach, each room of the registry is
    stored under the code it carries in its own [code] field, so that
    [io.to(room.code)] and [io.to(player.roomCode)] address the same group
    and [rooms.delete(room.code)] removes the room that was looked up. *)
Theorem rooms_keyed_by_code evs c room :
  rooms (exec init evs) !! c = Some room → Room.code room = c.
Proof. intros H. by destruct (registry_ok_exec evs init registry_ok_init c room H). Qed.

Lemma rooms_keyed_by_code_witness :
  Room.code (Room.mk "ABCDEF" "a" [mkPlayer "a" "Ann" true; mkPlayer "b" "Bob" false]
                     Drawing [] []) = "ABCDEF".
Proof.
  apply (rooms_keyed_by_code
           [OnCreateRoom "a" "Ann" "ABCDEF"; OnJoinRoom "b" "ABCDEF" "Bob";
            OnStartGame "a" "ABCDEF"]).
  vm_compute. reflexivity.
Defined.

(** X3: no roster ever exceeds 8 players: in every reachable state each
    room of the registry has at most 8 roster entries, whatever joins,
    re-joins and disconnects led there. *)
Theorem roster_at_most_8 evs c room :
  rooms (exec init evs) !! c = Some room → (length (Room.players room) ≤ 8)%nat.
Proof.
  intros H. destruct (registry_ok_exec evs init registry_ok_init c room H)
    as (_ & Hlen & _). lia.
Qed.

Lemma roster_at_most_8_witness :
  (length [mkPlayer "a" "Ann" true; mkPlayer "b" "Bob" false] ≤ 8)%nat.
Proof.
  apply (roster_at_most_8
           [OnCreateRoom "a" "Ann" "ABCDEF"; OnJoinRoom "b" "ABCDEF" "Bob"]
           "ABCDEF"
           (Room.mk "ABCDEF" "a" [mkPlayer "a" "Ann" true; mkPlayer "b" "Bob" false]
                    Waiting [] [])).
  vm_compute. reflexivity.
Defined.

(** X4: in every reachable state the host field of a room is the id of a
    roster entry of that room whose isHost flag is set, and every roster
    entry whose isHost flag is set carries the host's id: creation, joins,
    promotions and departures keep the flag and the host pointer together. *)
Theorem host_is_flagged_member evs c room :
  rooms (exec init evs) !! c = Some room →
  (∃ p, p ∈ Room.players room ∧ id p = Room.host room ∧ isHost p = true) ∧
  (∀ p, p ∈ Room.players room → isHost p = true → id p = Room.host room).
Proof.
  intros H. by destruct (registry_ok_exec evs init registry_ok_init c room H)
    as (_ & _ & Hhost & Hflag).
Qed.

Lemma host_is_flagged_member_witness :
  let room := Room.mk "ABCDEF" "b" [mkPlayer "b" "Bob" true; mkPlayer "c" "Cy" false]
                      Waiting [] [] in
  (∃ p, p ∈ Room.players room ∧ id p = Room.host room ∧ isHost p = true) ∧
  (∀ p, p ∈ Room.players room → isHost p = true → id p = Room.host room).
Proof.
  intros room.
  apply (host_is_flagged_member
           [OnCreateRoom "a" "Ann" "ABCDEF"; OnJoinRoom "b" "ABCDEF" "Bob";
            OnJoinRoom "c" "ABCDEF" "Cy"; OnDisconnect "a"] "ABCDEF").
  vm_compute. reflexivity.
Defined.

(** ** Timers in reachable states *)

Lemma timers_ok_step st ev :
  Forall timer_ok (timers st) → Forall timer_ok (timers (step st ev).1).
Proof.
  intros Hok. destruct ev as [s n c|s c n|s c|s d now|s d now|s m tme|s|t]; simpl.
  - done.
  - unfold joinRoom. destruct (rooms st !! c); [|done]. by case_bool_decide.
  - unfold startGame. destruct (rooms st !! c); [|done].
    repeat case_bool_decide; try done. simpl.
    apply Forall_app. split; [done|]. repeat constructor; simpl; lia.
  - unfold submitDrawing. destruct (players st !! s); [|done].
    by destruct (rooms st !! _).
  - unfold submitSlogan. destruct (players st !! s); [|done].
    by destruct (rooms st !! _).
  - unfold chatMessage. by destruct (players st !! s).
  - by disconnect_cases st s.
  - unfold tick. destruct (timers st !! t) as [tm|] eqn:Ht; [|done].
    destruct (armed tm) eqn:Harmed; [|done].
    destruct (proj1 (Forall_lookup _ _) Hok t tm Ht) as [Hrange Hiff].
    apply Hiff in Harmed.
    case_bool_decide; simpl; (apply Forall_insert; [done|]); split; simpl;
      try lia; split; (done || lia).
Qed.

Lemma timers_ok_exec evs : ∀ st,
  Forall timer_ok (timers st) → Forall timer_ok (timers (exec st evs)).
Proof.
  induction evs as [|ev evs IH]; intros st Hok; [done|].
  rewrite exec_cons. by apply IH, timers_ok_step.
Qed.

(** X5: in every reachable state each timer's countdown is between 0 and 3
    and its interval is armed exactly while the countdown is positive; hence
    a countdownUpdate emitted by any callback, in any interleaving and after
    any number of startGame calls, carries 0, 1 or 2 and never a negative
    value. *)
Theorem countdown_stays_in_range evs t :
  (∀ tm, timers (exec init evs) !! t = Some tm →
     0 ≤ countdown tm ≤ 3 ∧ (armed tm = true ↔ 0 < countdown tm)) ∧
  (∀ e k, e ∈ (tick (exec init evs) t).2 → msg e = CountdownUpdate k →
     0 ≤ k ≤ 2).
Proof.
  pose proof (timers_ok_exec evs init (Forall_nil_2 _)) as Hok.
  set (st := exec init evs) in *.
  assert (Htm : ∀ tm, timers st !! t = Some tm → timer_ok tm)
    by (intros tm; apply (proj1 (Forall_lookup _ _) Hok)).
  split; [exact Htm|].
  intros e k. unfold tick. destruct (timers st !! t) as [tm|]; [|by intros ?%elem_of_nil].
  destruct (Htm tm eq_refl) as [Hrange Hiff].
  destruct (armed tm); [|by intros ?%elem_of_nil].
  assert (0 < countdown tm) by (by apply Hiff).
  case_bool_decide; simpl; intros He Hk.
  - apply elem_of_cons in He as [->|He]; [injection Hk as <-; lia|].
    apply list_elem_of_singleton in He as ->. discriminate.
  - apply list_elem_of_singleton in He as ->. injection Hk as <-. lia.
Qed.

Lemma countdown_stays_in_range_witness :
  0 ≤ countdown (mkTimer "ABCDEF" 1 true) ≤ 3 ∧
  (armed (mkTimer "ABCDEF" 1 true) = true ↔ 0 < countdown (mkTimer "ABCDEF" 1 true)).
Proof.
  apply (proj1 (countdown_stays_in_range
                  [OnCreateRoom "a" "Ann" "ABCDEF"; OnJoinRoom "b" "ABCDEF" "Bob";
                   OnStartGame "a" "ABCDEF"; OnTick 0; OnTick 0] 0%nat)).
  vm_compute. reflexivity.
Defined.

(** ** Chat *)

Lemma directory_in_groups_step st ev :
  directory_in_groups st → directory_in_groups (step st ev).1.
Proof.
  intros Hin. destruct ev as [s n c|s c n|s c|s d now|s d now|s m tme|s|t]; simpl.
  - intros s' e. simpl. rewrite members_join, lookup_insert.
    case_decide as Hs.
    + intros [= <-]. simpl. rewrite decide_True by done. set_solver.
    + intros He. specialize (Hin s' e He). case_decide; [subst|done]. set_solver.
  - unfold joinRoom. destruct (rooms st !! c) as [room|]; [|done].
    case_bool_decide; [done|]. intros s' e. simpl.
    rewrite members_join, lookup_insert. case_decide as Hs.
    + intros [= <-]. simpl. rewrite decide_True by done. set_solver.
    + intros He. specialize (Hin s' e He). case_decide; [subst|done]. set_solver.
  - unfold startGame. destruct (rooms st !! c); [|done].
    by repeat case_bool_decide.
  - unfold submitDrawing. destruct (players st !! s); [|done].
    by destruct (rooms st !! _).
  - unfold submitSlogan. destruct (players st !! s); [|done].
    by destruct (rooms st !! _).
  - unfold chatMessage. by destruct (players st !! s).
  - assert (Hleft : ∀ rm pl tm,
      (∀ s' e, pl !! s' = Some e → s' ≠ s ∧ players st !! s' = Some e) →
      directory_in_groups (mkState rm pl (leave_all s (groups st)) tm)).
    { intros rm pl tm Hpl s' e He. simpl in He. destruct (Hpl s' e He) as [Hne He'].
      rewrite members_leave. apply elem_of_difference. split; [by apply Hin|].
      by rewrite elem_of_singleton. }
    disconnect_cases st s; simpl; apply Hleft; intros s' e' He';
      first [ apply lookup_delete_Some in He' as [Hne He']; split; [congruence|done]
            | split; [intros ->; congruence|done] ].
  - unfold tick. destruct (timers st !! t) as [tm|]; [|done].
    destruct (armed tm); [|done]. by case_bool_decide.
Qed.

Lemma directory_in_groups_exec evs : ∀ st,
  directory_in_groups st → directory_in_groups (exec st evs).
Proof.
  induction evs as [|ev evs IH]; intros st Hok; [done|].
  rewrite exec_cons. by apply IH, directory_in_groups_step.
Qed.

Lemma directory_in_groups_init : directory_in_groups init.
Proof. intros s e. simpl. by rewrite lookup_empty. Qed.

(** X6: chatMessage never changes the state.  From a session the directory
    does not know it emits nothing; from a known session, in any reachable
    state, it emits exactly one chatMessage, addressed to the room code of
    the sender's directory entry and carrying the sender's directory name,
    which reaches the sender itself and every session whose directory entry
    names the same room code. *)
Theorem chatMessage_relayed evs s m tme :
  let st := exec init evs in
  (chatMessage st s m tme).1 = st ∧
  (players st !! s = None → (chatMessage st s m tme).2 = []) ∧
  (∀ e, players st !! s = Some e →
     ∃ reached,
       (chatMessage st s m tme).2
         = [mkEmission (ToRoom (roomCode e)) reached
              (ChatMessage (name (player e)) m tme)] ∧
       s ∈ reached ∧
       ∀ s' e', players st !! s' = Some e' → roomCode e' = roomCode e →
                s' ∈ reached).
Proof.
  intros st.
  pose proof (directory_in_groups_exec evs init directory_in_groups_init) as Hin.
  fold st in Hin. unfold chatMessage. split; [by destruct (players st !! s)|].
  split; [by intros ->|]. intros e He. rewrite He.
  exists (members st (roomCode e)). split; [done|]. split; [by apply Hin|].
  intros s' e' He' <-. by apply Hin.
Qed.

Lemma chatMessage_relayed_witness :
  let st := exec init [OnCreateRoom "a" "Ann" "ABCDEF"; OnJoinRoom "b" "ABCDEF" "Bob"] in
  ∃ reached,
    (chatMessage st "b" "hi" "10:00").2
      = [mkEmission (ToRoom "ABCDEF") reached (ChatMessage "Bob" "hi" "10:00")] ∧
    "b" ∈ reached ∧
    ∀ s' e', players st !! s' = Some e' → roomCode e' = "ABCDEF" → s' ∈ reached.
Proof.
  intros st.
  apply (proj2 (proj2 (chatMessage_relayed
                         [OnCreateRoom "a" "Ann" "ABCDEF"; OnJoinRoom "b" "ABCDEF" "Bob"]
                         "b" "hi" "10:00"))
           (mkEntry (mkPlayer "b" "Bob" false) "ABCDEF")).
  vm_compute. reflexivity.
Defined.

(** ** Errors *)

Ltac pick_emission He :=
  repeat (apply elem_of_cons in He as [->|He]);
  try (by apply elem_of_nil in He).

(** X7: an error event is only ever a reply to the session whose request
    was refused.  Whenever a handler emits an error, the error is its only
    emission, it is a unicast to the session the event came from, the state
    is left exactly as it was, and the text is one of the three messages of
    joinRoom and startGame. *)
Theorem error_is_sole_unicast_reply st ev e text :
  e ∈ (step st ev).2 → msg e = Error text →
  ∃ s, actor ev = Some s ∧
       e = mkEmission (ToSocket s) {[ s ]} (Error text) ∧
       step st ev = (st, [e]) ∧
       (text = room_not_found ∨ text = room_full ∨ text = not_enough_players).
Proof.
  destruct ev as [s n c|s c n|s c|s d now|s d now|s m tme|s|t]; simpl.
  - intros He Hmsg. pick_emission He. discriminate.
  - unfold joinRoom. destruct (rooms st !! c) as [room|].
    + case_bool_decide; simpl; intros He Hmsg; pick_emission He;
        try discriminate.
      injection Hmsg as <-. exists s. eauto 10.
    + simpl. intros He Hmsg. pick_emission He. injection Hmsg as <-.
      exists s. eauto 10.
  - unfold startGame. destruct (rooms st !! c) as [room|]; simpl;
      [|by intros ?%elem_of_nil].
    repeat case_bool_decide; simpl; intros He Hmsg; pick_emission He;
      try discriminate.
    injection Hmsg as <-. exists s. eauto 10.
  - unfold submitDrawing. destruct (players st !! s) as [en|]; simpl;
      [|by intros ?%elem_of_nil].
    destruct (rooms st !! roomCode en); simpl; intros He Hmsg; pick_emission He.
    discriminate.
  - unfold submitSlogan. destruct (players st !! s) as [en|]; simpl;
      [|by intros ?%elem_of_nil].
    destruct (rooms st !! roomCode en); simpl; intros He Hmsg; pick_emission He.
    discriminate.
  - unfold chatMessage. destruct (players st !! s) as [en|]; simpl;
      intros He Hmsg; pick_emission He. discriminate.
  - disconnect_cases st s; simpl; intros He0 Hmsg; pick_emission He0;
      discriminate.
  - unfold tick. destruct (timers st !! t) as [tm|]; simpl;
      [|by intros ?%elem_of_nil].
    destruct (armed tm); simpl; [|by intros ?%elem_of_nil].
    case_bool_decide; simpl; intros He Hmsg; pick_emission He; discriminate.
Qed.

Lemma error_is_sole_unicast_reply_witness :
  ∃ s, actor (OnJoinRoom "b" "QQQQQQ" "Bob") = Some s ∧
       mkEmission (ToSocket "b") {[ "b" ]} (Error room_not_found)
         = mkEmission (ToSocket s) {[ s ]} (Error room_not_found) ∧
       step init (OnJoinRoom "b" "QQQQQQ" "Bob")
         = (init, [mkEmission (ToSocket "b") {[ "b" ]} (Error room_not_found)]) ∧
       (room_not_found = room_not_found ∨ room_not_found = room_full
        ∨ room_not_found = not_enough_players).
Proof.
  apply (error_is_sole_unicast_reply init (OnJoinRoom "b" "QQQQQQ" "Bob")).
  - apply list_elem_of_here.
  - reflexivity.
Defined.

(** ** What an event leaves alone *)

(** X8: an event changes no directory entry but that of the session it
    comes from: the entries of all other sessions are as before, and a timer
    callback changes none. *)
Theorem only_own_directory_entry_changes st ev s' :
  actor ev ≠ Some s' → players (step st ev).1 !! s' = players st !! s'.
Proof.
  destruct ev as [s n c|s c n|s c|s d now|s d now|s m tme|s|t]; simpl; intros Hs.
  - rewrite lookup_insert_ne; [done|congruence].
  - unfold joinRoom. destruct (rooms st !! c); [|done].
    case_bool_decide; [done|]. simpl. rewrite lookup_insert_ne; [done|congruence].
  - unfold startGame. destruct (rooms st !! c); [|done].
    by repeat case_bool_decide.
  - unfold submitDrawing. destruct (players st !! s); [|done].
    by destruct (rooms st !! _).
  - unfold submitSlogan. destruct (players st !! s); [|done].
    by destruct (rooms st !! _).
  - unfold chatMessage. by destruct (players st !! s).
  - disconnect_cases st s; simpl; try done;
      (rewrite lookup_delete_ne; [done|congruence]).
  - unfold tick. destruct (timers st !! t) as [tm|]; [|done].
    destruct (armed tm); [|done]. by case_bool_decide.
Qed.

Lemma only_own_directory_entry_changes_witness :
  let st := exec init [OnCreateRoom "a" "Ann" "ABCDEF"; OnJoinRoom "b" "ABCDEF" "Bob"] in
  players (step st (OnDisconnect "a")).1 !! "b" = players st !! "b".
Proof.
  intros st. apply (only_own_directory_entry_changes st (OnDisconnect "a") "b").
  simpl. discriminate.
Defined.

Lemma step_other_room st ev c :
  registry_ok st → room_of st ev ≠ Some c →
  rooms (step st ev).1 !! c = rooms st !! c.
Proof.
  intros Hok.
  destruct ev as [s n c'|s c' n|s c'|s d now|s d now|s m tme|s|t]; simpl; intros Hc.
  - rewrite lookup_insert_ne; [done|congruence].
  - unfold joinRoom. destruct (rooms st !! c'); [|done].
    case_bool_decide; [done|]. simpl. rewrite lookup_insert_ne; [done|congruence].
  - unfold startGame. destruct (rooms st !! c'); [|done].
    repeat case_bool_decide; try done. simpl.
    rewrite lookup_insert_ne; [done|congruence].
  - unfold submitDrawing. destruct (players st !! s) as [e|]; [|done]. simpl in Hc.
    destruct (rooms st !! roomCode e); [|done]. simpl.
    rewrite lookup_insert_ne; [done|congruence].
  - unfold submitSlogan. destruct (players st !! s) as [e|]; [|done]. simpl in Hc.
    destruct (rooms st !! roomCode e); [|done]. simpl.
    rewrite lookup_insert_ne; [done|congruence].
  - unfold chatMessage. by destruct (players st !! s).
  - disconnect_cases st s; simpl in *; try done.
    + destruct (Hok _ _ Hroom) as [-> _]. rewrite delete_insert_eq.
      rewrite lookup_delete_ne; [done|congruence].
    + rewrite lookup_insert_ne; [done|congruence].
    + rewrite lookup_insert_ne; [done|congruence].
  - unfold tick. destruct (timers st !! t) as [tm|]; [|done].
    destruct (armed tm); [|done]. by case_bool_decide.
Qed.

(** X9: in every reachable state an event touches at most one room of the
    registry, the one its handler looks up (by the code in its payload for
    createRoom, joinRoom and startGame, by the sender's directory entry for
    submissions and disconnect); every other room, with its roster, host,
    game state and submissions, is exactly as before.  Chat and timer
    callbacks touch no room. *)
Theorem other_rooms_untouched evs ev c :
  room_of (exec init evs) ev ≠ Some c →
  rooms (step (exec init evs) ev).1 !! c = rooms (exec init evs) !! c.
Proof. apply step_other_room, registry_ok_exec, registry_ok_init. Qed.

Lemma other_rooms_untouched_witness :
  let evs := [OnCreateRoom "a" "Ann" "ABCDEF"; OnCreateRoom "b" "Bob" "GHIJKL"] in
  rooms (step (exec init evs) (OnDisconnect "b")).1 !! "ABCDEF"
    = rooms (exec init evs) !! "ABCDEF".
Proof.
  intros evs. apply (other_rooms_untouched evs (OnDisconnect "b") "ABCDEF").
  vm_compute. discriminate.
Defined.

(** ** More on disconnect *)

Lemma leave_all_twice s (g : gmap string (gset string)) :
  leave_all s (leave_all s g) = leave_all s g.
Proof.
  apply map_eq. intros c. unfold leave_all. rewrite !lookup_fmap.
  destruct (g !! c) as [m|]; simpl; [|done]. f_equal.
  apply set_eq. intros x. rewrite !elem_of_difference. tauto.
Qed.

Lemma disconnect_directory st s : players (disconnect st s).1 !! s = None.
Proof. disconnect_cases st s; simpl; try apply lookup_delete_eq. done. Qed.

Lemma disconnect_groups st s :
  groups (disconnect st s).1 = leave_all s (groups st).
Proof. by disconnect_cases st s. Qed.

(** X10: after its disconnect was handled a session is gone from the
    server's books: it has no directory entry, it is in no broadcast group,
    the room its directory entry named holds no roster entry with its id
    (if that room still exists), and none of the events the handler emitted
    (newHost, playerLeft) was delivered to it. *)
Theorem disconnect_forgets_session st s :
  players (disconnect st s).1 !! s = None ∧
  (∀ c, s ∉ members (disconnect st s).1 c) ∧
  (∀ e room', players st !! s = Some e →
     rooms (disconnect st s).1 !! roomCode e = Some room' →
     ∀ p, p ∈ Room.players room' → id p ≠ s) ∧
  (∀ e, e ∈ (disconnect st s).2 → s ∉ recipients e).
Proof.
  split; [apply disconnect_directory|]. split; [|split].
  - intros c. unfold members. rewrite disconnect_groups.
    change (s ∉ members (mkState (rooms st) (players st)
                           (leave_all s (groups st)) (timers st)) c).
    rewrite members_leave. intros [_ Hs]%elem_of_difference.
    apply Hs. by apply elem_of_singleton.
  - intros e0 room' He0 Hroom' p Hp.
    revert Hroom'. disconnect_cases st s; simpl; try congruence;
      assert (e0 = e) as -> by congruence.
    + intros Hroom'. apply lookup_delete_Some in Hroom' as [_ Hroom'].
      rewrite lookup_insert_eq in Hroom'. injection Hroom' as <-.
      by apply elem_of_nil in Hp.
    + rewrite lookup_insert_eq. intros [= <-]. simpl in Hp.
      assert (∀ q, q ∈ p0 :: l → id q ≠ s) as Hrest.
      { intros q Hq. rewrite <- Hw in Hq. by apply without_elem in Hq as [? _]. }
      apply elem_of_cons in Hp as [->|Hp].
      * apply (Hrest p0), list_elem_of_here.
      * by apply Hrest, list_elem_of_further.
    + rewrite lookup_insert_eq. intros [= <-]. simpl in Hp.
      rewrite <- Hw in Hp. by apply without_elem in Hp as [? _].
  - assert (Hleft : ∀ c, s ∉ default (∅ : gset string) (leave_all s (groups st) !! c)).
    { intros c. unfold leave_all. rewrite lookup_fmap.
      destruct (groups st !! c); simpl; [|apply not_elem_of_empty].
      intros [_ Hs]%elem_of_difference. apply Hs. by apply elem_of_singleton. }
    intros e0. disconnect_cases st s; simpl; intros He0; pick_emission He0;
      simpl; apply Hleft.
Qed.

Lemma disconnect_forgets_session_witness :
  let st := exec init [OnCreateRoom "a" "Ann" "ABCDEF"; OnJoinRoom "b" "ABCDEF" "Bob"] in
  players (disconnect st "a").1 !! "a" = None ∧
  ∀ p, p ∈ [mkPlayer "b" "Bob" true] → id p ≠ "a".
Proof.
  intros st. split; [apply (disconnect_forgets_session st "a")|].
  apply (proj1 (proj2 (proj2 (disconnect_forgets_session st "a")))
           (mkEntry (mkPlayer "a" "Ann" true) "ABCDEF")
           (Room.mk "ABCDEF" "b" [mkPlayer "b" "Bob" true] Waiting [] []));
    vm_compute; reflexivity.
Defined.

(** X11: events that arrive from a session after its disconnect are
    ignored: submitDrawing, submitSlogan and chatMessage change nothing and
    emit nothing, and a second disconnect is a no-op as well. *)
Theorem late_events_ignored st s :
  let st' := (disconnect st s).1 in
  (∀ d now, submitDrawing st' s d now = (st', [])) ∧
  (∀ d now, submitSlogan st' s d now = (st', [])) ∧
  (∀ m tme, chatMessage st' s m tme = (st', [])) ∧
  disconnect st' s = (st', []).
Proof.
  intros st'. pose proof (disconnect_directory st s) as Hgone. fold st' in Hgone.
  unfold submitDrawing, submitSlogan, chatMessage. rewrite Hgone.
  repeat split. rewrite (disconnect_unknown _ _ Hgone).
  unfold st'. rewrite disconnect_groups, leave_all_twice.
  rewrite <- (disconnect_groups st s). by destruct (disconnect st s).1.
Qed.

(** X12: when a session that is not the host of the room its directory entry
    names disconnects and others remain, nobody is promoted: the host field
    is unchanged, the roster is the old one without the leaver's entries, in
    the old order and with the old flags, game state and submissions are
    kept, and the only event is playerLeft with the leaver's id. *)
Theorem other_player_leaves st s e room :
  players st !! s = Some e → rooms st !! roomCode e = Some room →
  Room.host room ≠ s → without s (Room.players room) ≠ [] →
  ∃ room',
    rooms (disconnect st s).1 !! roomCode e = Some room' ∧
    Room.host room' = Room.host room ∧
    Room.players room' = without s (Room.players room) ∧
    Room.players room' `sublist_of` Room.players room ∧
    Room.gameState room' = Room.gameState room ∧
    Room.drawings room' = Room.drawings room ∧
    Room.slogans room' = Room.slogans room ∧
    msg <$> (disconnect st s).2 = [PlayerLeft s].
Proof.
  intros He Hroom Hhost Hrem.
  destruct (without s (Room.players room)) as [|p rest] eqn:Hw; [done|].
  rewrite (disconnect_leave _ _ _ _ _ _ He Hroom Hhost Hw). simpl.
  eexists. split; [apply lookup_insert_eq|]. simpl.
  repeat split. rewrite <- Hw. apply sublist_filter.
Qed.

Lemma other_player_leaves_witness :
  let st := exec init [OnCreateRoom "a" "Ann" "ABCDEF"; OnJoinRoom "b" "ABCDEF" "Bob";
                       OnJoinRoom "c" "ABCDEF" "Cy"] in
  ∃ room',
    rooms (disconnect st "b").1 !! "ABCDEF" = Some room' ∧
    Room.host room' = "a" ∧
    Room.players room' = without "b" [mkPlayer "a" "Ann" true; mkPlayer "b" "Bob" false;
                                      mkPlayer "c" "Cy" false] ∧
    Room.players room' `sublist_of` [mkPlayer "a" "Ann" true; mkPlayer "b" "Bob" false;
                                     mkPlayer "c" "Cy" false] ∧
    Room.gameState room' = Waiting ∧
    Room.drawings room' = [] ∧
    Room.slogans room' = [] ∧
    msg <$> (disconnect st "b").2 = [PlayerLeft "b"].
Proof.
  intros st.
  apply (other_player_leaves st "b" (mkEntry (mkPlayer "b" "Bob" false) "ABCDEF")
           (Room.mk "ABCDEF" "a" [mkPlayer "a" "Ann" true; mkPlayer "b" "Bob" false;
                                  mkPlayer "c" "Cy" false] Waiting [] [])).
  - vm_compute. reflexivity.
  - vm_compute. reflexivity.
  - simpl. discriminate.
  - vm_compute. discriminate.
Defined.

(** ** What a room keeps while it lives *)

(** One event: the room has the submissions it had, possibly with more
    appended, and has not fallen back from drawing to waiting. *)
Lemma step_keeps_history st ev c room room' :
  ¬ creates c ev → rooms st !! c = Some room →
  rooms (step st ev).1 !! c = Some room' →
  Room.drawings room `prefix_of` Room.drawings room' ∧
  Room.slogans room `prefix_of` Room.slogans room' ∧
  (Room.gameState room = Drawing → Room.gameState room' = Drawing).
Proof.
  intros Hev Hroom.
  assert (Hsame : rooms st !! c = Some room' →
    Room.drawings room `prefix_of` Room.drawings room' ∧
    Room.slogans room `prefix_of` Room.slogans room' ∧
    (Room.gameState room = Drawing → Room.gameState room' = Drawing)).
  { intros H. by assert (room' = room) as -> by congruence. }
  assert (Hupd : ∀ k room0 room1,
    rooms st !! k = Some room0 →
    Room.drawings room0 `prefix_of` Room.drawings room1 →
    Room.slogans room0 `prefix_of` Room.slogans room1 →
    (Room.gameState room0 = Drawing → Room.gameState room1 = Drawing) →
    <[k := room1]> (rooms st) !! c = Some room' →
    Room.drawings room `prefix_of` Room.drawings room' ∧
    Room.slogans room `prefix_of` Room.slogans room' ∧
    (Room.gameState room = Drawing → Room.gameState room' = Drawing)).
  { intros k room0 room1 Hk Hd Hs Hg. rewrite lookup_insert.
    case_decide as Hkc; [|done]. intros [= <-]. subst k.
    by assert (room0 = room) as -> by congruence. }
  destruct ev as [s n c'|s c' n|s c'|s d now|s d now|s m tme|s|t]; simpl in *.
  - rewrite lookup_insert_ne by exact Hev. done.
  - unfold joinRoom. destruct (rooms st !! c') as [room0|] eqn:Hroom0; [|done].
    case_bool_decide; [done|]. by apply (Hupd c' room0).
  - unfold startGame. destruct (rooms st !! c') as [room0|] eqn:Hroom0; [|done].
    repeat case_bool_decide; try done. by apply (Hupd c' room0).
  - unfold submitDrawing. destruct (players st !! s) as [e|]; [|done].
    destruct (rooms st !! roomCode e) as [room0|] eqn:Hroom0; [|done].
    apply (Hupd (roomCode e) room0); [done| |done..]. simpl. by apply prefix_app_r.
  - unfold submitSlogan. destruct (players st !! s) as [e|]; [|done].
    destruct (rooms st !! roomCode e) as [room0|] eqn:Hroom0; [|done].
    apply (Hupd (roomCode e) room0); [done..| |done]. simpl. by apply prefix_app_r.
  - unfold chatMessage. by destruct (players st !! s).
  - disconnect_cases st s; simpl; try done.
    + intros [_ H]%lookup_delete_Some. revert H.
      by apply (Hupd (roomCode e) room0).
    + by apply (Hupd (roomCode e) room0).
    + by apply (Hupd (roomCode e) room0).
  - unfold tick. destruct (timers st !! t) as [tm|]; [|done].
    destruct (armed tm); [|done]. by case_bool_decide.
Qed.

(** X13: as long as createRoom does not draw a room's code again, whatever
    is handled, a room that is still in the registry has kept all it had:
    its drawings and slogans are the old lists with, at most, new entries
    appended (nothing is removed, reordered or reset, not by startGame and
    not by a host change), and a game that was in state drawing is still in
    state drawing. *)
Theorem room_keeps_submissions c evs : ∀ st room room',
  Forall (λ ev, ¬ creates c ev) evs →
  rooms st !! c = Some room → rooms (exec st evs) !! c = Some room' →
  Room.drawings room `prefix_of` Room.drawings room' ∧
  Room.slogans room `prefix_of` Room.slogans room' ∧
  (Room.gameState room = Drawing → Room.gameState room' = Drawing).
Proof.
  induction evs as [|ev evs IH]; intros st room room' Hevs Hroom Hroom'.
  - rewrite exec_nil in Hroom'. by assert (room' = room) as -> by congruence.
  - rewrite exec_cons in Hroom'. inversion Hevs as [|? ? Hev Hrest]; subst.
    destruct (rooms (step st ev).1 !! c) as [room1|] eqn:Hroom1.
    + destruct (step_keeps_history st ev c room room1 Hev Hroom Hroom1)
        as (Hd1 & Hs1 & Hg1).
      destruct (IH _ room1 room' Hrest Hroom1 Hroom') as (Hd2 & Hs2 & Hg2).
      split; [by etrans|]. split; [by etrans|auto].
    + rewrite (exec_keeps_absent c evs _ Hroom1 Hrest) in Hroom'. done.
Qed.

Lemma room_keeps_submissions_witness :
  let st := exec init [OnCreateRoom "a" "Ann" "ABCDEF"; OnJoinRoom "b" "ABCDEF" "Bob";
                       OnSubmitDrawing "b" "shirt" 1000] in
  [mkSubmission "b" "shirt" 1000]
    `prefix_of` [mkSubmission "b" "shirt" 1000; mkSubmission "b" "hat" 1002] ∧
  ([] : list Submission) `prefix_of` [mkSubmission "b" "wow" 1001] ∧
  (Waiting = Drawing → Drawing = Drawing).
Proof.
  intros st.
  apply (room_keeps_submissions "ABCDEF"
           [OnStartGame "a" "ABCDEF"; OnSubmitSlogan "b" "wow" 1001;
            OnDisconnect "a"; OnSubmitDrawing "b" "hat" 1002]
           st
           (Room.mk "ABCDEF" "a" [mkPlayer "a" "Ann" true; mkPlayer "b" "Bob" false]
                    Waiting [mkSubmission "b" "shirt" 1000] [])
           (Room.mk "ABCDEF" "b" [mkPlayer "b" "Bob" true] Drawing
                    [mkSubmission "b" "shirt" 1000; mkSubmission "b" "hat" 1002]
                    [mkSubmission "b" "wow" 1001])).
  - repeat constructor; simpl; tauto.
  - vm_compute. reflexivity.
  - vm_compute. reflexivity.
Defined.

(** ** startGame and createRoom once more *)

(** X14: startGame does not look at the game state.  After a successful
    startGame the room is in state drawing, and the same request from the
    host succeeds again: it broadcasts gameStarting with countdown 3 once
    more and arms a second timer next to the first; both timers then run
    their own countdown, each emitting the full sequence. *)
Theorem startGame_again st s c room :
  rooms st !! c = Some room → Room.host room = s →
  (2 ≤ length (Room.players room))%nat →
  let st1 := (startGame st s c).1 in
  let st2 := (startGame st1 s c).1 in
  let t := length (timers st) in
  Room.gameState <$> rooms st1 !! c = Some Drawing ∧
  addressed <$> (startGame st1 s c).2 = [(ToRoom c, GameStarting 3)] ∧
  timers st2 = timers st ++ [mkTimer c 3 true; mkTimer c 3 true] ∧
  ∀ evs,
    addressed <$> fired t st2 evs = script c 3 (ticks t evs) ∧
    addressed <$> fired (S t) st2 evs = script c 3 (ticks (S t) evs).
Proof.
  intros Hroom Hhost Hlen st1 st2 t.
  assert (Hst1 : startGame st s c =
    (mkState (<[c := Room.mk (Room.code room) (Room.host room) (Room.players room)
                      Drawing (Room.drawings room) (Room.slogans room)]> (rooms st))
             (players st) (groups st) (timers st ++ [mkTimer c 3 true]),
     [io_to_emit st c (GameStarting 3)])).
  { unfold startGame. rewrite Hroom.
    rewrite bool_decide_false by (intros Hne; by apply Hne).
    by rewrite bool_decide_false by lia. }
  assert (Hst2 : startGame st1 s c =
    (mkState (<[c := Room.mk (Room.code room) (Room.host room) (Room.players room)
                      Drawing (Room.drawings room) (Room.slogans room)]> (rooms st1))
             (players st1) (groups st1) (timers st1 ++ [mkTimer c 3 true]),
     [io_to_emit st1 c (GameStarting 3)])).
  { unfold st1. rewrite Hst1. unfold startGame. simpl. rewrite lookup_insert_eq. simpl.
    rewrite bool_decide_false by (intros Hne; by apply Hne).
    by rewrite bool_decide_false by lia. }
  assert (Htimers : timers st2 = timers st ++ [mkTimer c 3 true; mkTimer c 3 true]).
  { unfold st2. rewrite Hst2. unfold st1. rewrite Hst1. simpl.
    by rewrite <- app_assoc. }
  split; [unfold st1; rewrite Hst1; simpl; by rewrite lookup_insert_eq|].
  split; [by rewrite Hst2|]. split; [done|].
  intros evs. split; apply fired_armed; rewrite Htimers, lookup_app_r; unfold t;
    try lia.
  - by rewrite Nat.sub_diag.
  - by replace (S (length (timers st)) - length (timers st))%nat with 1%nat by lia.
Qed.

Lemma startGame_again_witness :
  let st := exec init [OnCreateRoom "a" "Ann" "ABCDEF"; OnJoinRoom "b" "ABCDEF" "Bob"] in
  timers (startGame (startGame st "a" "ABCDEF").1 "a" "ABCDEF").1
    = timers st ++ [mkTimer "ABCDEF" 3 true; mkTimer "ABCDEF" 3 true].
Proof.
  intros st.
  apply (startGame_again st "a" "ABCDEF"
           (Room.mk "ABCDEF" "a" [mkPlayer "a" "Ann" true; mkPlayer "b" "Bob" false]
                    Waiting [] [])).
  - vm_compute. reflexivity.
  - reflexivity.
  - simpl. lia.
Defined.

(** X15: createRoom does not check the drawn code against the registry or
    the directory.  Whatever room was stored under the drawn code is
    replaced by a room in state waiting whose only player is the creator
    and which has no submissions, while the directory entry of any other
    session that names the code stays as it is.  A drawing that such a
    session submits afterwards is therefore appended to the new room and
    announced with total 1, although the session is not in the new room's
    roster. *)
Theorem createRoom_collision_takes_over st s n c s' e' :
  players st !! s' = Some e' → roomCode e' = c → s' ≠ s →
  let st1 := (createRoom st s n c).1 in
  rooms st1 !! c = Some (Room.mk c s [mkPlayer s n true] Waiting [] []) ∧
  players st1 !! s' = Some e' ∧
  ∀ d now,
    rooms (submitDrawing st1 s' d now).1 !! c
      = Some (Room.mk c s [mkPlayer s n true] Waiting [mkSubmission s' d now] []) ∧
    msg <$> (submitDrawing st1 s' d now).2
      = [DrawingReceived (name (player e')) 1].
Proof.
  intros He' Hc Hne st1.
  assert (Hroom : rooms st1 !! c = Some (Room.mk c s [mkPlayer s n true] Waiting [] []))
    by apply lookup_insert_eq.
  assert (Hdir : players st1 !! s' = Some e').
  { unfold st1. simpl. rewrite lookup_insert_ne; [done|congruence]. }
  split; [done|]. split; [done|]. intros d now.
  rewrite <- Hc in Hroom.
  rewrite (submitDrawing_ok st1 s' e' _ d now Hdir Hroom). simpl.
  rewrite <- Hc, lookup_insert_eq. done.
Qed.

Lemma createRoom_collision_takes_over_witness :
  let st := exec init [OnCreateRoom "a" "Ann" "ABCDEF"; OnJoinRoom "b" "ABCDEF" "Bob";
                       OnSubmitDrawing "b" "shirt" 1000] in
  let st1 := (createRoom st "z" "Zoe" "ABCDEF").1 in
  rooms st1 !! "ABCDEF"
    = Some (Room.mk "ABCDEF" "z" [mkPlayer "z" "Zoe" true] Waiting [] []) ∧
  players st1 !! "b" = Some (mkEntry (mkPlayer "b" "Bob" false) "ABCDEF") ∧
  ∀ d now,
    rooms (submitDrawing st1 "b" d now).1 !! "ABCDEF"
      = Some (Room.mk "ABCDEF" "z" [mkPlayer "z" "Zoe" true] Waiting
                      [mkSubmission "b" d now] []) ∧
    msg <$> (submitDrawing st1 "b" d now).2 = [DrawingReceived "Bob" 1].
Proof.
  intros st.
  apply (createRoom_collision_takes_over st "z" "Zoe" "ABCDEF" "b"
           (mkEntry (mkPlayer "b" "Bob" false) "ABCDEF")).
  - vm_compute. reflexivity.
  - reflexivity.
  - discriminate.
Defined.

(** ** Whom a room broadcast reaches *)

Lemma broadcast_recipients st ev e c :
  e ∈ (step st ev).2 → target e = ToRoom c →
  recipients e = members (step st ev).1 c.
Proof.
  destruct ev as [s n c'|s c' n|s c'|s d now|s d now|s m tme|s|t]; simpl.
  - intros He Ht. pick_emission He. discriminate.
  - unfold joinRoom. destruct (rooms st !! c') as [room|]; simpl.
    + case_bool_decide; simpl; intros He Ht; pick_emission He; try discriminate.
      by injection Ht as <-.
    + intros He Ht. pick_emission He. discriminate.
  - unfold startGame. destruct (rooms st !! c') as [room|]; simpl;
      [|by intros ?%elem_of_nil].
    repeat case_bool_decide; simpl; intros He Ht; pick_emission He;
      try discriminate.
    by injection Ht as <-.
  - unfold submitDrawing. destruct (players st !! s) as [en|]; simpl;
      [|by intros ?%elem_of_nil].
    destruct (rooms st !! roomCode en); simpl; intros He Ht; pick_emission He.
    by injection Ht as <-.
  - unfold submitSlogan. destruct (players st !! s) as [en|]; simpl;
      [|by intros ?%elem_of_nil].
    destruct (rooms st !! roomCode en); simpl; intros He Ht; pick_emission He.
    by injection Ht as <-.
  - unfold chatMessage. destruct (players st !! s) as [en|]; simpl;
      intros He Ht; pick_emission He. by injection Ht as <-.
  - disconnect_cases st s; simpl; intros He0 Ht; pick_emission He0;
      by injection Ht as <-.
  - unfold tick. destruct (timers st !! t) as [tm|]; simpl;
      [|by intros ?%elem_of_nil].
    destruct (armed tm); simpl; [|by intros ?%elem_of_nil].
    case_bool_decide; simpl; intros He Ht; pick_emission He;
      by injection Ht as <-.
Qed.

(** X16: in every reachable state, an event that a handler or a timer
    callback broadcasts to a room code is delivered to every session that
    the directory places in that room once the handler is done: a joiner
    gets its own playerJoined, the remaining players get newHost and
    playerLeft, and all of them get gameStarting, the countdown, the
    progress notices and the chat. *)
Theorem broadcast_reaches_room evs ev e c s' e' :
  e ∈ (step (exec init evs) ev).2 → target e = ToRoom c →
  players (step (exec init evs) ev).1 !! s' = Some e' → roomCode e' = c →
  s' ∈ recipients e.
Proof.
  intros He Ht He' <-. rewrite (broadcast_recipients _ _ _ _ He Ht).
  by apply (directory_in_groups_step (exec init evs) ev
              (directory_in_groups_exec evs init directory_in_groups_init)).
Qed.

Lemma broadcast_reaches_room_witness :
  "b" ∈ recipients (mkEmission (ToRoom "ABCDEF") ({[ "b" ]} ∪ {[ "c" ]})
                               (NewHost (mkPlayer "b" "Bob" true))).
Proof.
  apply (broadcast_reaches_room
           [OnCreateRoom "a" "Ann" "ABCDEF"; OnJoinRoom "b" "ABCDEF" "Bob";
            OnJoinRoom "c" "ABCDEF" "Cy"]
           (OnDisconnect "a")
           (mkEmission (ToRoom "ABCDEF") ({[ "b" ]} ∪ {[ "c" ]})
                       (NewHost (mkPlayer "b" "Bob" true)))
           "ABCDEF" "b" (mkEntry (mkPlayer "b" "Bob" false) "ABCDEF")).
  - vm_compute. apply list_elem_of_here.
  - reflexivity.
  - vm_compute. reflexivity.
  - reflexivity.
Defined.

(** X17: as long as createRoom never drew the code of a live room, a
    submission from a session that the directory knows is never dropped:
    the room its entry names exists, the drawing (slogan) is appended with
    the sender's id and the given timestamp, and the progress notice with
    the new total goes to that room's code.  From a session the directory
    does not know, both handlers do nothing. *)
Theorem known_session_submission_recorded evs s :
  let st := exec init evs in
  (players st !! s = None →
   ∀ d now, submitDrawing st s d now = (st, []) ∧
            submitSlogan st s d now = (st, [])) ∧
  (fresh_codes init evs →
   ∀ e, players st !! s = Some e →
   ∃ room, rooms st !! roomCode e = Some room ∧
     ∀ d now,
       rooms (submitDrawing st s d now).1 !! roomCode e
         = Some (with_drawing room (mkSubmission s d now)) ∧
       addressed <$> (submitDrawing st s d now).2
         = [(ToRoom (roomCode e),
             DrawingReceived (name (player e)) (S (length (Room.drawings room))))] ∧
       rooms (submitSlogan st s d now).1 !! roomCode e
         = Some (with_slogan room (mkSubmission s d now)) ∧
       addressed <$> (submitSlogan st s d now).2
         = [(ToRoom (roomCode e),
             SloganReceived (name (player e)) (S (length (Room.slogans room))))]).
Proof.
  intros st. split.
  - intros Hnone d now. unfold submitDrawing, submitSlogan. by rewrite Hnone.
  - intros Hfresh e He.
    pose proof (consistent_exec evs init rooms_wf_init consistent_init Hfresh)
      as [Hdir _].
    destruct (Hdir s e He) as (_ & room & _ & Hroom & _).
    destruct (rooms_wf_exec evs init rooms_wf_init _ _ Hroom) as [Hcode _].
    fold st in Hroom. exists room. split; [done|]. intros d now.
    rewrite (submitDrawing_ok _ _ _ _ d now He Hroom).
    rewrite (submitSlogan_ok _ _ _ _ d now He Hroom). simpl.
    rewrite !lookup_insert_eq. unfold addressed. simpl. by rewrite Hcode.
Qed.

Lemma known_session_submission_recorded_witness :
  let evs := [OnCreateRoom "a" "Ann" "ABCDEF"; OnJoinRoom "b" "ABCDEF" "Bob"] in
  (∀ d now, submitDrawing (exec init evs) "z" d now = (exec init evs, []) ∧
            submitSlogan (exec init evs) "z" d now = (exec init evs, [])) ∧
  ∃ room, rooms (exec init evs) !! "ABCDEF" = Some room ∧
    ∀ d now,
      rooms (submitDrawing (exec init evs) "b" d now).1 !! "ABCDEF"
        = Some (with_drawing room (mkSubmission "b" d now)) ∧
      addressed <$> (submitDrawing (exec init evs) "b" d now).2
        = [(ToRoom "ABCDEF", DrawingReceived "Bob" (S (length (Room.drawings room))))] ∧
      rooms (submitSlogan (exec init evs) "b" d now).1 !! "ABCDEF"
        = Some (with_slogan room (mkSubmission "b" d now)) ∧
      addressed <$> (submitSlogan (exec init evs) "b" d now).2
        = [(ToRoom "ABCDEF", SloganReceived "Bob" (S (length (Room.slogans room))))].
Proof.
  intros evs. split.
  - apply (proj1 (known_session_submission_recorded evs "z")).
    vm_compute. reflexivity.
  - apply (proj2 (known_session_submission_recorded evs "b")
             ltac:(vm_compute; repeat split)
             (mkEntry (mkPlayer "b" "Bob" false) "ABCDEF")).
    vm_compute. reflexivity.
Defined.
